(** * The kernel and program build cache of the SYCL runtime

    A shallow embedding of [sycl/source/detail/kernel_program_cache.hpp]
    (class [sycl::detail::KernelProgramCache]) and the properties of its
    operations: get-or-insert on the program and kernel caches, the
    wait-until-built protocol on one build result, the fast kernel cache,
    and [reset].

    Conventions of the embedding:
    - a raw pointer is its address, a number of type [N]; [nullptr] is 0;
    - [std::map] is a [gmap]; the iteration order of a map is not observed
      by any operation of the class;
    - [std::multimap] is the list of its (key, value) nodes in iteration
      order: sorted by key, nodes of equal keys in insertion order;
    - a pointer into a [std::map] node (the node addresses of a map are
      stable) is the key of that node;
    - every member function is a computation in the monad [Op], which
      threads the cache object and records the mutex operations it performs;
    - a member function that touches a map holds the mutex of that map from
      its first to its last access, so concurrent calls of such functions
      act on the cache as one sequence of calls, [run];
    - a build result is shared between its waiters and the thread that
      builds: a waiter sees its successive contents, one per read it makes
      of the build result: one per evaluation of the wait predicate, under
      the lock, then one when it tests the error and one when it takes
      the error or the pointer, both after the lock is released; a build
      result that is not written between two reads shows the same content
      twice. *)

From Stdlib Require Import ZArith NArith.
From Stdlib.Strings Require Import Byte.
From stdpp Require Import gmap strings list fin_maps.

(** ** Native handles and keys *)

(** [RT::PiProgram], [RT::PiKernel], [RT::PiDevice] are pointers to opaque
    plugin objects, [const KernelArgMask *] and [std::mutex *] are pointers
    too; [OSModuleHandle] is an [intptr_t]. *)
Abbreviation ptr := N (only parsing).
Abbreviation PiProgram := N (only parsing).
Abbreviation PiKernel := N (only parsing).
Abbreviation PiDevice := N (only parsing).
Abbreviation ContextPtr := N (only parsing).
Abbreviation OSModuleHandle := Z (only parsing).
Abbreviation pi_int32 := Z (only parsing).

Definition nullptr : N := 0%N.

(** [SerializedObj] is [std::vector<unsigned char>]. *)
Abbreviation SerializedObj := (list Byte.byte) (only parsing).

#[global] Instance byte_eq_dec : EqDecision Byte.byte := Byte.byte_eq_dec.

#[global] Instance byte_countable : Countable Byte.byte :=
  inj_countable Byte.to_N Byte.of_N Byte.of_to_N.

(** ** Build errors, build states, build results *)

Record BuildError := mkBuildError {
  Msg : string;
  Code : pi_int32
}.

(** [bool isFilledIn() const { return !Msg.empty(); }] *)
Definition isFilledIn (e : BuildError) : bool :=
  negb (Nat.eqb (String.length (Msg e)) 0).

Inductive BuildState := BS_InProgress | BS_Done | BS_Failed.

#[global] Instance BuildState_eq_dec : EqDecision BuildState.
Proof. solve_decision. Defined.

(** The value of a default-initialised [T Val] member. *)
Class DefaultInit (T : Type) := default_init : T.

(** [template <typename T> struct BuildResult]: [Ptr] is the
    [std::atomic<T *>], [State] the [std::atomic<BuildState>].  The
    condition variable [MBuildCV] and the mutex [MBuildResultMutex] carry no
    data; their use is recorded by the events of [waitUntilBuilt]. *)
Record BuildResult (T : Type) := mkBuildResult {
  Ptr : ptr;
  Val : T;
  State : BuildState;
  Error : BuildError
}.
Arguments mkBuildResult {T} _ _ _ _.
Arguments Ptr {T} _.
Arguments Val {T} _.
Arguments State {T} _.
Arguments Error {T} _.

(** [BuildResult(T *P, BuildState S)] initialises [Ptr{P}], [State{S}] and
    [Error] with the empty message and code 0. *)
Definition BuildResult_ctor {T} `{DefaultInit T} (P : ptr) (S : BuildState)
  : BuildResult T :=
  {| Ptr := P; Val := default_init; State := S;
     Error := {| Msg := EmptyString; Code := 0 |} |}.

(** [using ProgramWithBuildStateT = BuildResult<RT::PiProgram>] *)
Abbreviation ProgramWithBuildStateT := (BuildResult PiProgram) (only parsing).

(** [std::pair<std::pair<SerializedObj, std::uintptr_t>,
               std::pair<RT::PiDevice, std::string>>] *)
Abbreviation ProgramCacheKeyT :=
  ((SerializedObj * N) * (PiDevice * string))%type (only parsing).

(** [std::pair<std::uintptr_t, RT::PiDevice>] *)
Abbreviation CommonProgramKeyT := (N * PiDevice)%type (only parsing).

(** [std::pair<RT::PiKernel, const KernelArgMask *>] *)
Abbreviation KernelArgMaskPairT := (PiKernel * ptr)%type (only parsing).

(** A [T Val] of pointer type is left uninitialised by the constructor; it is
    read by no operation of the class and stands here as the null pointer.
    A [std::pair] member is value-initialised. *)
#[global] Instance PiProgram_default : DefaultInit PiProgram := nullptr.
#[global] Instance KernelArgMaskPairT_default : DefaultInit KernelArgMaskPairT :=
  (nullptr, nullptr).

(** ** The containers *)

(** [std::map::emplace]: the node is inserted only when no node has the key;
    the result is the map and the [second] of the returned pair. *)
Definition map_emplace `{Countable K} {V} (k : K) (v : V) (m : gmap K V)
  : gmap K V * bool :=
  match m !! k with
  | Some _ => (m, false)
  | None => (<[k := v]> m, true)
  end.

(** [std::less] on the key types of the multimap. *)
Class Less (K : Type) := less : K → K → bool.

#[global] Instance N_less : Less N := N.ltb.

(** [operator<] of [std::pair]: lexicographic. *)
#[global] Instance pair_less `{Less A} `{Less B} : Less (A * B) :=
  λ x y, less x.1 y.1 || (negb (less y.1 x.1) && less x.2 y.2).

Definition multimap (K V : Type) := list (K * V).

(** [std::multimap::emplace]: the new node goes to the upper bound of its
    key, that is before the first node whose key is greater. *)
Fixpoint multimap_emplace `{Less K} {V} (k : K) (v : V) (m : multimap K V)
  : multimap K V :=
  match m with
  | [] => [(k, v)]
  | kv :: rest =>
      if less k kv.1 then (k, v) :: kv :: rest
      else kv :: multimap_emplace k v rest
  end.

(** [std::multimap::size] *)
Definition multimap_size {K V} (m : multimap K V) : nat := length m.

(** [struct ProgramCache] *)
Record ProgramCache := mkProgramCache {
  Cache : gmap ProgramCacheKeyT ProgramWithBuildStateT;
  KeyMap : multimap CommonProgramKeyT ProgramCacheKeyT
}.

(** [size_t size() const noexcept { return Cache.size(); }] *)
Definition ProgramCache_size (pc : ProgramCache) : nat := size (Cache pc).

(** [ProgramCache{}] *)
Definition ProgramCache_empty : ProgramCache :=
  {| Cache := ∅; KeyMap := [] |}.

Abbreviation KernelByNameT := (gmap string (BuildResult KernelArgMaskPairT))
  (only parsing).
Abbreviation KernelCacheT := (gmap PiProgram KernelByNameT) (only parsing).

(** [std::tuple<SerializedObj, OSModuleHandle, RT::PiDevice, std::string,
                std::string>] *)
Abbreviation KernelFastCacheKeyT :=
  (SerializedObj * OSModuleHandle * PiDevice * string * string)%type
  (only parsing).

(** [std::tuple<RT::PiKernel, std::mutex *, const KernelArgMask *,
                RT::PiProgram>] *)
Abbreviation KernelFastCacheValT := (PiKernel * ptr * ptr * PiProgram)%type
  (only parsing).

Abbreviation KernelFastCacheT := (gmap KernelFastCacheKeyT KernelFastCacheValT)
  (only parsing).

(** ** The cache object *)

Record KernelProgramCache := mkKernelProgramCache {
  MCachedPrograms : ProgramCache;
  MKernelsPerProgramCache : KernelCacheT;
  MParentContext : ContextPtr;
  MKernelFastCache : KernelFastCacheT
}.

(** The mutexes of the class, and the one of a build result. *)
Inductive Mutex :=
  | MProgramCacheMutex
  | MKernelsPerProgramCacheMutex
  | MKernelFastCacheMutex
  | MBuildResultMutex.

#[global] Instance Mutex_eq_dec : EqDecision Mutex.
Proof. solve_decision. Defined.

(** What a member function does to mutexes and to the condition variable of
    a build result: [EvPred b] is one evaluation of the wait predicate with
    result [b]; [EvCvWait] is one [condition_variable::wait(Lock)], which
    releases the mutex, blocks until a wakeup and takes the mutex again. *)
Inductive Event :=
  | EvLock (m : Mutex)
  | EvUnlock (m : Mutex)
  | EvPred (b : bool)
  | EvCvWait.

#[global] Instance Event_eq_dec : EqDecision Event.
Proof. solve_decision. Defined.

(** The mutexes a trace takes, in the order it takes them. *)
Definition acquired (t : list Event) : list Mutex :=
  omap (λ e, match e with EvLock m => Some m | _ => None end) t.

(** ** The monad of member functions *)

Definition Op (A : Type) : Type :=
  KernelProgramCache → A * KernelProgramCache * list Event.

#[global] Instance Op_ret : MRet Op := λ A a c, (a, c, []).

#[global] Instance Op_bind : MBind Op := λ A B f m c,
  let '(a, c1, t1) := m c in
  let '(b, c2, t2) := f a c1 in
  (b, c2, t1 ++ t2).

#[global] Instance Op_fmap : FMap Op := λ A B f m, a ← m; mret (f a).

Definition gets {A} (f : KernelProgramCache → A) : Op A := λ c, (f c, c, []).
Definition modify (f : KernelProgramCache → KernelProgramCache) : Op unit :=
  λ c, (tt, f c, []).
Definition emit (e : Event) : Op unit := λ c, (tt, c, [e]).

(** Projections of a finished computation. *)
Definition result {A} (x : A * KernelProgramCache * list Event) : A := x.1.1.
Definition after {A} (x : A * KernelProgramCache * list Event)
  : KernelProgramCache := x.1.2.
Definition trace {A} (x : A * KernelProgramCache * list Event)
  : list Event := x.2.

(** [std::unique_lock<std::mutex> Lock(M)] and the end of its scope. *)
Definition lock (m : Mutex) : Op unit := emit (EvLock m).
Definition unlock (m : Mutex) : Op unit := emit (EvUnlock m).

Definition set_MCachedPrograms (pc : ProgramCache) : Op unit :=
  modify (λ c, {| MCachedPrograms := pc;
                  MKernelsPerProgramCache := MKernelsPerProgramCache c;
                  MParentContext := MParentContext c;
                  MKernelFastCache := MKernelFastCache c |}).

Definition set_MKernelsPerProgramCache (kc : KernelCacheT) : Op unit :=
  modify (λ c, {| MCachedPrograms := MCachedPrograms c;
                  MKernelsPerProgramCache := kc;
                  MParentContext := MParentContext c;
                  MKernelFastCache := MKernelFastCache c |}).

Definition set_MKernelFastCache (fc : KernelFastCacheT) : Op unit :=
  modify (λ c, {| MCachedPrograms := MCachedPrograms c;
                  MKernelsPerProgramCache := MKernelsPerProgramCache c;
                  MParentContext := MParentContext c;
                  MKernelFastCache := fc |}).

(** ** The member functions *)

(** Modelled from the spec: [Locked<T>] of [sycl/detail/locked.hpp], whose
    declaration is not part of these sources, is a scoped, lock-guarded view:
    building it takes the mutex, the end of its scope releases it. *)
Definition acquireCachedPrograms : Op ProgramCache :=
  lock MProgramCacheMutex ;; gets MCachedPrograms.

Definition acquireKernelsPerProgramCache : Op KernelCacheT :=
  lock MKernelsPerProgramCacheMutex ;; gets MKernelsPerProgramCache.

(** [void setContextPtr(const ContextPtr &AContext)] *)
Definition setContextPtr (AContext : ContextPtr) : Op unit :=
  modify (λ c, {| MCachedPrograms := MCachedPrograms c;
                  MKernelsPerProgramCache := MKernelsPerProgramCache c;
                  MParentContext := AContext;
                  MKernelFastCache := MKernelFastCache c |}).

(** [getOrInsertProgram]: the returned pointer [&Inserted.first->second] is
    the node of [CacheKey]. *)
Definition getOrInsertProgram (CacheKey : ProgramCacheKeyT)
  : Op (ProgramCacheKeyT * bool) :=
  ProgCache ← acquireCachedPrograms;
  let Inserted :=
    map_emplace CacheKey (BuildResult_ctor nullptr BS_InProgress)
                (Cache ProgCache) in
  let KeyMap' :=
    if Inserted.2 then
      (* Save reference between the common key and the full key. *)
      let CommonKey := (CacheKey.1.2, CacheKey.2.1) in
      multimap_emplace CommonKey CacheKey (KeyMap ProgCache)
    else KeyMap ProgCache in
  set_MCachedPrograms {| Cache := Inserted.1; KeyMap := KeyMap' |} ;;
  unlock MProgramCacheMutex ;;
  mret (CacheKey, Inserted.2).

(** [getOrInsertKernel]: [LockedCache.get()[Program]] creates an empty
    [KernelByNameT] for a program that has none; the returned pointer is the
    node of [KernelName] in the map of [Program]. *)
Definition getOrInsertKernel (Program : PiProgram) (KernelName : string)
  : Op ((PiProgram * string) * bool) :=
  LockedCache ← acquireKernelsPerProgramCache;
  let ByName := default ∅ (LockedCache !! Program) in
  let Inserted :=
    map_emplace KernelName (BuildResult_ctor nullptr BS_InProgress) ByName in
  set_MKernelsPerProgramCache (<[Program := Inserted.1]> LockedCache) ;;
  unlock MKernelsPerProgramCacheMutex ;;
  mret ((Program, KernelName), Inserted.2).

(** [tryToGetKernelFast] *)
Definition tryToGetKernelFast (CacheKey : KernelFastCacheKeyT)
  : Op KernelFastCacheValT :=
  lock MKernelFastCacheMutex ;;
  FastCache ← gets MKernelFastCache;
  let It := FastCache !! CacheKey in
  unlock MKernelFastCacheMutex ;;
  mret match It with
       | Some second => second
       | None => (nullptr, nullptr, nullptr, nullptr)
       end.

(** [saveKernel] *)
Definition saveKernel (CacheKey : KernelFastCacheKeyT)
    (CacheVal : KernelFastCacheValT) : Op unit :=
  lock MKernelFastCacheMutex ;;
  FastCache ← gets MKernelFastCache;
  set_MKernelFastCache (map_emplace CacheKey CacheVal FastCache).1 ;;
  unlock MKernelFastCacheMutex.

(** [reset]: three assignments, no lock. *)
Definition reset : Op unit :=
  set_MCachedPrograms ProgramCache_empty ;;
  set_MKernelsPerProgramCache ∅ ;;
  set_MKernelFastCache ∅.

(** The nodes that the pointers returned by get-or-insert designate. *)
Definition program_entry (p : ProgramCacheKeyT) (c : KernelProgramCache)
  : option ProgramWithBuildStateT :=
  Cache (MCachedPrograms c) !! p.

Definition kernel_entry (p : PiProgram * string) (c : KernelProgramCache)
  : option (BuildResult KernelArgMaskPairT) :=
  MKernelsPerProgramCache c !! p.1 ≫= λ ByName, ByName !! p.2.

(** A cache object with empty caches. *)
Definition KernelProgramCache_init (ctx : ContextPtr) : KernelProgramCache :=
  {| MCachedPrograms := ProgramCache_empty;
     MKernelsPerProgramCache := ∅;
     MParentContext := ctx;
     MKernelFastCache := ∅ |}.

(** ** Waiting for a build result *)

(** [condition_variable::wait(Lock, Pred)] is [while (!Pred()) wait(Lock);].
    The build result is shared with the thread that builds: [now] is its
    content at the first evaluation of the predicate, [wakeups] its content
    at each later wakeup of the waiter (a spurious wakeup repeats the
    content).  The result is the content on which the predicate held, or
    [None] when the waiter is still blocked after all the wakeups. *)
Fixpoint cv_wait {St} (Pred : St → bool) (wakeups : list St) (now : St)
  : option St * list Event :=
  if Pred now then (Some now, [EvPred true])
  else match wakeups with
       | [] => (None, [EvPred false; EvCvWait])
       | s :: rest =>
           let r := cv_wait Pred rest s in
           (r.1, EvPred false :: EvCvWait :: r.2)
       end.

(** [waitUntilBuilt(BuildResult<T> &BR, Predicate Pred)]: the lock is taken
    on entry and released when the function returns. *)
Definition waitUntilBuilt_pred {T} (BR : BuildResult T)
    (Pred : BuildResult T → bool) (wakeups : list (BuildResult T))
  : option (BuildResult T) * list Event :=
  let r := cv_wait Pred wakeups BR in
  match r.1 with
  | Some br => (Some br, EvLock MBuildResultMutex :: r.2
                           ++ [EvUnlock MBuildResultMutex])
  | None => (None, EvLock MBuildResultMutex :: r.2)
  end.

(** The exception type [ExceptionT] of [waitUntilBuilt] is built from a
    message and a code. *)
Class BuildException (E : Type) := make_exception : string → pi_int32 → E.

(** How a call of [waitUntilBuilt] ends. *)
Inductive Outcome (E : Type) :=
  | Returned (p : ptr)
  | Thrown (e : E)
  | Blocked.
Arguments Returned {E} _.
Arguments Thrown {E} _.
Arguments Blocked {E}.

(** The predicate of [waitUntilBuilt]. *)
Definition built_or_failed {T} (BR : BuildResult T) : bool :=
  let State := State BR in
  bool_decide (State = BS_Done) || bool_decide (State = BS_Failed).

(** The contents of the build result that follow the one on which the
    predicate held: what the build result becomes after the wait ended. *)
Fixpoint cv_unread {St} (Pred : St → bool) (wakeups : list St) (now : St)
  : list St :=
  if Pred now then wakeups
  else match wakeups with
       | [] => []
       | s :: rest => cv_unread Pred rest s
       end.

(** [template <typename ExceptionT, typename RetT>
     RetT *waitUntilBuilt(BuildResult<RetT> *BuildResult)]

    [BR] is the content of the build result at the first evaluation of the
    predicate and [wakeups] its content at each later read by the waiter:
    at each wakeup while it waits and, once the predicate overload has
    returned and released the lock, at [BuildResult->Error.isFilledIn()]
    ([atCheck]) and then at [ExceptionT(Error.Msg, Error.Code)] or
    [BuildResult->Ptr.load()] ([atUse]).  When the list is used up the
    build result keeps its last content. *)
Definition waitUntilBuilt `{BuildException E} {RetT}
    (BR : BuildResult RetT) (wakeups : list (BuildResult RetT))
  : Outcome E * list Event :=
  let r := waitUntilBuilt_pred BR built_or_failed wakeups in
  match r.1 with
  | None => (Blocked, r.2)
  | Some br =>
      let later := cv_unread built_or_failed wakeups BR in
      let atCheck := default br (head later) in
      let atUse := default atCheck (head (tail later)) in
      if isFilledIn (Error atCheck) then
        let Error := Error atUse in
        (Thrown (make_exception (Msg Error) (Code Error)), r.2)
      else (Returned (Ptr atUse), r.2)
  end.

(** ** Sequences of calls *)

Inductive Call :=
  | CGetOrInsertProgram (CacheKey : ProgramCacheKeyT)
  | CGetOrInsertKernel (Program : PiProgram) (KernelName : string)
  | CTryToGetKernelFast (CacheKey : KernelFastCacheKeyT)
  | CSaveKernel (CacheKey : KernelFastCacheKeyT) (CacheVal : KernelFastCacheValT)
  | CSetContextPtr (AContext : ContextPtr)
  | CReset.

Inductive Reply :=
  | RProgram (r : ProgramCacheKeyT * bool)
  | RKernel (r : (PiProgram * string) * bool)
  | RFast (v : KernelFastCacheValT)
  | RVoid.

Definition call (x : Call) : Op Reply :=
  match x with
  | CGetOrInsertProgram k => RProgram <$> getOrInsertProgram k
  | CGetOrInsertKernel p n => RKernel <$> getOrInsertKernel p n
  | CTryToGetKernelFast k => RFast <$> tryToGetKernelFast k
  | CSaveKernel k v => saveKernel k v ;; mret RVoid
  | CSetContextPtr p => setContextPtr p ;; mret RVoid
  | CReset => reset ;; mret RVoid
  end.

Fixpoint run (xs : list Call) : Op (list Reply) :=
  match xs with
  | [] => mret []
  | x :: rest => r ← call x; rs ← run rest; mret (r :: rs)
  end.

#[global] Instance Call_eq_dec : EqDecision Call.
Proof. solve_decision. Defined.

(** ** Observations on a sequence of calls *)

(** The [second] that a get-or-insert call returned, for the calls of a
    sequence that are the call [target]. *)
Definition fresh_flag (target x : Call) (r : Reply) : option bool :=
  if decide (x = target) then
    match r with
    | RProgram r => Some r.2
    | RKernel r => Some r.2
    | _ => None
    end
  else None.

Definition fresh_flags (target : Call) (xs : list Call) (rs : list Reply)
  : list bool :=
  omap (λ xr, fresh_flag target xr.1 xr.2) (zip xs rs).

(** The first flag, if there is one, is [true] and all later ones are
    [false]. *)
Definition first_only (flags : list bool) : Prop :=
  match flags with
  | [] => True
  | b :: rest => b = true ∧ Forall (λ b', b' = false) rest
  end.

(** Whether the node a get-or-insert call asks for exists. *)
Definition has_entry (target : Call) (c : KernelProgramCache) : bool :=
  match target with
  | CGetOrInsertProgram k => bool_decide (is_Some (program_entry k c))
  | CGetOrInsertKernel p n => bool_decide (is_Some (kernel_entry (p, n) c))
  | _ => false
  end.

Definition is_get_or_insert (x : Call) : bool :=
  match x with
  | CGetOrInsertProgram _ | CGetOrInsertKernel _ _ => true
  | _ => false
  end.

(** ** Sample inputs *)

Definition sample_key_O2 : ProgramCacheKeyT :=
  (([Byte.x7f; Byte.x45], 5%N), (7%N, "-O2"%string)).

Definition sample_key_O3 : ProgramCacheKeyT :=
  (([Byte.x7f; Byte.x45], 5%N), (7%N, "-O3"%string)).

Definition sample_fast_key : KernelFastCacheKeyT :=
  ([Byte.x7f; Byte.x45], 64%Z, 7%N, "-O2"%string, "saxpy"%string).

Definition sample_cache : KernelProgramCache := KernelProgramCache_init 1%N.

(** The sample cache after a first request for [sample_key_O2] and for the
    kernel [saxpy] of program 3. *)
Definition sample_cache_warm : KernelProgramCache :=
  after (run [CGetOrInsertProgram sample_key_O2;
              CGetOrInsertKernel 3%N "saxpy"] sample_cache).

Definition sample_calls : list Call :=
  [CGetOrInsertKernel 3%N "saxpy"; CGetOrInsertProgram sample_key_O2;
   CGetOrInsertProgram sample_key_O3; CGetOrInsertProgram sample_key_O2;
   CSaveKernel sample_fast_key (11%N, 12%N, 13%N, 3%N);
   CGetOrInsertKernel 3%N "saxpy"; CGetOrInsertProgram sample_key_O2].

(** ** Observations on a wait *)

(** [n] rounds of a false predicate followed by a blocking wait. *)
Fixpoint wait_rounds (n : nat) : list Event :=
  match n with
  | O => []
  | S n' => EvPred false :: EvCvWait :: wait_rounds n'
  end.

#[global] Instance BuildError_eq_dec : EqDecision BuildError.
Proof. solve_decision. Defined.

(** Two contents of a build result show the same to a waiter: the same
    pointer, state and error ([Val] is read by no member function). *)
Definition same_reads {T} (s t : BuildResult T) : bool :=
  bool_decide (Ptr t = Ptr s) && bool_decide (State t = State s)
  && bool_decide (Error t = Error s).

(** The build result is not written any more once it is built or failed:
    every content after the first one that is [BS_Done] or [BS_Failed]
    shows the same pointer, state and error as that one. *)
Fixpoint stays_once_built {T} (contents : list (BuildResult T)) : bool :=
  match contents with
  | [] => true
  | s :: later =>
      if built_or_failed s then forallb (same_reads s) later
      else stays_once_built later
  end.


(** An exception type a caller may pass as [ExceptionT]. *)
Inductive compile_program_error :=
  | CompileProgramError (msg : string) (code : pi_int32).

#[global] Instance compile_program_error_exception
  : BuildException compile_program_error := CompileProgramError.


Definition sample_failed : ProgramWithBuildStateT :=
  {| Ptr := nullptr; Val := nullptr; State := BS_Failed;
     Error := {| Msg := "bad SPIR-V"; Code := 7 |} |}.

Definition sample_in_progress : ProgramWithBuildStateT :=
  BuildResult_ctor nullptr BS_InProgress.

Definition sample_done : ProgramWithBuildStateT :=
  {| Ptr := 4096%N; Val := 77%N; State := BS_Done;
     Error := {| Msg := EmptyString; Code := 0 |} |}.

(** ** The ready pointer and the state of a build result *)

(** "The pointer is not null if and only if the entity is usable". *)
Definition usable_iff_done {T} (br : BuildResult T) : Prop :=
  Ptr br ≠ nullptr ↔ State br = BS_Done.

#[global] Instance usable_iff_done_dec {T} (br : BuildResult T)
  : Decision (usable_iff_done br).
Proof. unfold usable_iff_done. apply _. Defined.

(** Every build result of the program cache and of the kernel cache
    satisfies it. *)
Definition all_usable_iff_done (c : KernelProgramCache) : Prop :=
  map_Forall (λ _ e, usable_iff_done e) (Cache (MCachedPrograms c))
  ∧ map_Forall (λ _ ByName, map_Forall (λ _ e, usable_iff_done e) ByName)
      (MKernelsPerProgramCache c).

#[global] Instance all_usable_iff_done_dec c : Decision (all_usable_iff_done c).
Proof. unfold all_usable_iff_done. apply _. Defined.


(** ** The secondary index *)

(** The node that [getOrInsertProgram] adds to [KeyMap] for a full key: the
    common key [(CacheKey.first.second, CacheKey.second.first)] and the full
    key. *)
Definition common_key_node (CacheKey : ProgramCacheKeyT)
  : CommonProgramKeyT * ProgramCacheKeyT :=
  ((CacheKey.1.2, CacheKey.2.1), CacheKey).

#[global] Instance common_key_node_inj : Inj (=) (=) common_key_node.
Proof. intros k1 k2 Heq. by injection Heq. Qed.

(** [KeyMap] has one node per key of [Cache], the node of that key. *)
Definition KeyMap_in_sync (pc : ProgramCache) : Prop :=
  KeyMap pc ≡ₚ common_key_node <$> (map_to_list (Cache pc)).*1.

(** ** Further observations on traces, replies and the index *)

(** Runs a trace from the mutex that is held ([None]: no mutex): a mutex
    is taken only when none is held, only the held mutex is released.  The
    result is the mutex held at the end, or [None] when the trace breaks
    one of the two rules. *)
Fixpoint held_after (held : option Mutex) (t : list Event)
  : option (option Mutex) :=
  match t with
  | [] => Some held
  | EvLock m :: rest =>
      match held with
      | None => held_after (Some m) rest
      | Some _ => None
      end
  | EvUnlock m :: rest =>
      match held with
      | Some m' => if decide (m = m') then held_after None rest else None
      | None => None
      end
  | _ :: rest => held_after held rest
  end.

(** The number of [getOrInsertProgram] calls that returned [true]. *)
Definition fresh_programs (rs : list Reply) : nat :=
  sum_list_with
    (λ r, match r with
          | RProgram r => if r.2 then 1 else 0
          | _ => 0
          end) rs.

(** The argument of the last [setContextPtr] of a sequence of calls, or
    [ctx] when there is none. *)
Definition last_context (xs : list Call) (ctx : ContextPtr) : ContextPtr :=
  foldl (λ ctx x, match x with CSetContextPtr p => p | _ => ctx end) ctx xs.

(** The nodes of a multimap are in non-decreasing order of their keys. *)
Fixpoint multimap_sorted `{Less K} {V} (m : multimap K V) : bool :=
  match m with
  | [] => true
  | kv :: rest =>
      match rest with
      | [] => true
      | kv' :: _ => negb (less kv'.1 kv.1)
      end && multimap_sorted rest
  end.

(** A cache whose fast cache has a tuple for [sample_fast_key] and whose
    program [sample_key_O2] failed to build. *)
Definition sample_cache_used : KernelProgramCache :=
  {| MCachedPrograms :=
       {| Cache := {[ sample_key_O2 := sample_failed ]};
          KeyMap := [((5%N, 7%N), sample_key_O2)] |};
     MKernelsPerProgramCache := ∅;
     MParentContext := 1%N;
     MKernelFastCache := {[ sample_fast_key := (11%N, 12%N, 13%N, 3%N) ]} |}.

(** Two calls can be swapped: in either order they leave the same cache
    and each gets the same reply. *)
Definition calls_commute (x y : Call) (c : KernelProgramCache) : Prop :=
  after (run [x; y] c) = after (run [y; x] c)
  ∧ result (run [x; y] c) = reverse (result (run [y; x] c)).

Definition sample_fast_key_other : KernelFastCacheKeyT :=
  ([Byte.x7f; Byte.x45], 64%Z, 7%N, "-O2"%string, "gemm"%string).

(** * Properties *)

(** ** Unfolding the member functions *)

Ltac op_unfold :=
  unfold getOrInsertProgram, getOrInsertKernel, tryToGetKernelFast, saveKernel,
    reset, setContextPtr, acquireCachedPrograms, acquireKernelsPerProgramCache,
    set_MCachedPrograms, set_MKernelsPerProgramCache, set_MKernelFastCache,
    lock, unlock, gets, modify, emit, fmap, Op_fmap, mbind, Op_bind, mret,
    Op_ret, result, after, trace, program_entry; simpl.

Lemma map_emplace_Some `{Countable K} {V} (k : K) (v x : V) (m : gmap K V) :
  m !! k = Some x → map_emplace k v m = (m, false).
Proof. intros Hk. unfold map_emplace. by rewrite Hk. Qed.

Lemma map_emplace_None `{Countable K} {V} (k : K) (v : V) (m : gmap K V) :
  m !! k = None → map_emplace k v m = (<[k := v]> m, true).
Proof. intros Hk. unfold map_emplace. by rewrite Hk. Qed.

Lemma map_emplace_lookup `{Countable K} {V} (k : K) (v : V) (m : gmap K V) :
  (map_emplace k v m).1 !! k = Some (default v (m !! k)).
Proof.
  unfold map_emplace. destruct (m !! k) eqn:Hk; simpl.
  - done.
  - apply lookup_insert_eq.
Qed.

Lemma map_emplace_lookup_ne `{Countable K} {V} (k j : K) (v : V) (m : gmap K V) :
  k ≠ j → (map_emplace k v m).1 !! j = m !! j.
Proof.
  intros Hne. unfold map_emplace. destruct (m !! k); simpl.
  - done.
  - by apply lookup_insert_ne.
Qed.

(** A request for a key that has a node: nothing changes. *)
Lemma getOrInsertProgram_hit k c e :
  program_entry k c = Some e →
  getOrInsertProgram k c
  = ((k, false), c, [EvLock MProgramCacheMutex; EvUnlock MProgramCacheMutex]).
Proof.
  destruct c as [[progs keys] kc ctx fc]. op_unfold. intros Hk.
  by rewrite (map_emplace_Some _ _ _ _ Hk).
Qed.

(** A request for a key that has no node: one node in each map is added. *)
Lemma getOrInsertProgram_miss k c :
  program_entry k c = None →
  getOrInsertProgram k c
  = ((k, true),
     {| MCachedPrograms :=
          {| Cache := <[k := BuildResult_ctor nullptr BS_InProgress]>
                        (Cache (MCachedPrograms c));
             KeyMap := multimap_emplace (k.1.2, k.2.1) k
                         (KeyMap (MCachedPrograms c)) |};
        MKernelsPerProgramCache := MKernelsPerProgramCache c;
        MParentContext := MParentContext c;
        MKernelFastCache := MKernelFastCache c |},
     [EvLock MProgramCacheMutex; EvUnlock MProgramCacheMutex]).
Proof.
  destruct c as [[progs keys] kc ctx fc]. op_unfold. intros Hk.
  by rewrite (map_emplace_None _ _ _ Hk).
Qed.

Lemma kernel_entry_Some p n c e :
  kernel_entry (p, n) c = Some e ↔
  ∃ ByName, MKernelsPerProgramCache c !! p = Some ByName ∧ ByName !! n = Some e.
Proof.
  unfold kernel_entry; simpl. destruct (MKernelsPerProgramCache c !! p); simpl.
  - split; [eauto | by intros (? & [= <-] & ?)].
  - split; [done | by intros (? & ? & ?)].
Qed.

Lemma kernel_entry_None p n c :
  kernel_entry (p, n) c = None ↔
  default ∅ (MKernelsPerProgramCache c !! p) !! n = None.
Proof.
  unfold kernel_entry; simpl. destruct (MKernelsPerProgramCache c !! p); simpl.
  - done.
  - by rewrite lookup_empty.
Qed.

Lemma getOrInsertKernel_hit p n c e :
  kernel_entry (p, n) c = Some e →
  getOrInsertKernel p n c
  = (((p, n), false), c,
     [EvLock MKernelsPerProgramCacheMutex;
      EvUnlock MKernelsPerProgramCacheMutex]).
Proof.
  intros (ByName & Hp & Hn)%kernel_entry_Some.
  destruct c as [pc kc ctx fc]. simpl in *. op_unfold.
  rewrite Hp; simpl. rewrite (map_emplace_Some _ _ _ _ Hn); simpl.
  by rewrite (insert_id _ _ _ Hp).
Qed.

Lemma getOrInsertKernel_miss p n c :
  kernel_entry (p, n) c = None →
  getOrInsertKernel p n c
  = (((p, n), true),
     {| MCachedPrograms := MCachedPrograms c;
        MKernelsPerProgramCache :=
          <[p := <[n := BuildResult_ctor nullptr BS_InProgress]>
                   (default ∅ (MKernelsPerProgramCache c !! p))]>
            (MKernelsPerProgramCache c);
        MParentContext := MParentContext c;
        MKernelFastCache := MKernelFastCache c |},
     [EvLock MKernelsPerProgramCacheMutex;
      EvUnlock MKernelsPerProgramCacheMutex]).
Proof.
  intros Hn%kernel_entry_None.
  destruct c as [pc kc ctx fc]. simpl in *. op_unfold.
  by rewrite (map_emplace_None _ _ _ Hn).
Qed.

(** ** Sequences of calls *)

Lemma fmap_Op {A B} (f : A → B) (m : Op A) c :
  (f <$> m) c = (f (result (m c)), after (m c), trace (m c)).
Proof.
  unfold fmap, Op_fmap, mbind, Op_bind, mret, Op_ret, result, after, trace.
  destruct (m c) as [[a c1] t1]; simpl. by rewrite app_nil_r.
Qed.

Lemma run_cons x xs c :
  result (run (x :: xs) c)
  = result (call x c) :: result (run xs (after (call x c)))
  ∧ after (run (x :: xs) c) = after (run xs (after (call x c)))
  ∧ trace (run (x :: xs) c)
    = trace (call x c) ++ trace (run xs (after (call x c))).
Proof.
  unfold result, after, trace. simpl. unfold mbind, Op_bind.
  destruct (call x c) as [[r c1] t1]. simpl.
  destruct (run xs c1) as [[rs c2] t2]. simpl.
  by rewrite app_nil_r.
Qed.

Lemma program_entry_getOrInsertProgram k k' c :
  program_entry k (after (getOrInsertProgram k' c))
  = if decide (k' = k)
    then Some (default (BuildResult_ctor nullptr BS_InProgress)
                       (program_entry k c))
    else program_entry k c.
Proof.
  destruct c as [[progs keys] kc ctx fc]. op_unfold.
  case_decide as Hk.
  - subst k'. apply map_emplace_lookup.
  - by apply map_emplace_lookup_ne.
Qed.

Lemma kernel_entry_getOrInsertKernel p n p' n' c :
  kernel_entry (p, n) (after (getOrInsertKernel p' n' c))
  = if decide ((p', n') = (p, n))
    then Some (default (BuildResult_ctor nullptr BS_InProgress)
                       (kernel_entry (p, n) c))
    else kernel_entry (p, n) c.
Proof.
  destruct c as [pc kc ctx fc]. unfold kernel_entry. op_unfold.
  destruct (decide (p' = p)) as [->|Hp].
  - rewrite lookup_insert_eq. simpl.
    destruct (decide (n' = n)) as [->|Hn].
    + rewrite decide_True by done. rewrite map_emplace_lookup.
      by destruct (kc !! p).
    + rewrite decide_False by congruence.
      rewrite map_emplace_lookup_ne by done.
      destruct (kc !! p); simpl; [done | by rewrite lookup_empty].
  - rewrite decide_False by congruence.
    by rewrite lookup_insert_ne.
Qed.

(** Only get-or-insert for the same key, and [reset], touch the node of a
    key. *)
Lemma program_entry_call_other k x c :
  x ≠ CGetOrInsertProgram k → x ≠ CReset →
  program_entry k (after (call x c)) = program_entry k c.
Proof.
  intros Hx Hr.
  destruct x as [k'| | | | |]; try done;
    try (destruct c as [pc kc ctx fc]; by op_unfold).
  pose proof (program_entry_getOrInsertProgram k k' c) as E.
  rewrite decide_False in E by congruence. rewrite <- E.
  unfold after; simpl. unfold fmap, Op_fmap, mbind, Op_bind.
  by destruct (getOrInsertProgram k' c) as [[? ?] ?].
Qed.

Lemma kernel_entry_call_other p n x c :
  x ≠ CGetOrInsertKernel p n → x ≠ CReset →
  kernel_entry (p, n) (after (call x c)) = kernel_entry (p, n) c.
Proof.
  intros Hx Hr.
  destruct x as [|p' n'| | | |]; try done;
    try (destruct c as [[progs keys] kc ctx fc]; by op_unfold).
  pose proof (kernel_entry_getOrInsertKernel p n p' n' c) as E.
  rewrite decide_False in E by congruence. rewrite <- E.
  unfold after; simpl. unfold fmap, Op_fmap, mbind, Op_bind.
  by destruct (getOrInsertKernel p' n' c) as [[? ?] ?].
Qed.

Lemma has_entry_call_other target x c :
  x ≠ target → x ≠ CReset →
  has_entry target (after (call x c)) = has_entry target c.
Proof.
  intros Hx Hr. destruct target; simpl; try done.
  - by rewrite program_entry_call_other.
  - by rewrite kernel_entry_call_other.
Qed.

Lemma has_entry_call_same target c :
  is_get_or_insert target = true →
  has_entry target (after (call target c)) = true
  ∧ fresh_flag target target (result (call target c))
    = Some (negb (has_entry target c)).
Proof.
  intros Hg. unfold fresh_flag. rewrite decide_True by done.
  destruct target as [k|p n| | | |]; try done;
    unfold call, has_entry; rewrite fmap_Op.
  - pose proof (program_entry_getOrInsertProgram k k c) as E.
    rewrite decide_True in E by done.
    destruct (program_entry k c) as [e|] eqn:Hk.
    + rewrite (getOrInsertProgram_hit _ _ _ Hk). unfold after, result; simpl.
      by rewrite Hk.
    + rewrite (getOrInsertProgram_miss _ _ Hk) in E |- *.
      unfold after, result in *; simpl in *. by rewrite E.
  - pose proof (kernel_entry_getOrInsertKernel p n p n c) as E.
    rewrite decide_True in E by done.
    destruct (kernel_entry (p, n) c) as [e|] eqn:Hk.
    + rewrite (getOrInsertKernel_hit _ _ _ _ Hk). unfold after, result; simpl.
      by rewrite Hk.
    + rewrite (getOrInsertKernel_miss _ _ _ Hk) in E |- *.
      unfold after, result in *; simpl in *. by rewrite E.
Qed.

Lemma fresh_flags_cons target x xs r rs :
  fresh_flags target (x :: xs) (r :: rs)
  = match fresh_flag target x r with
    | Some b => b :: fresh_flags target xs rs
    | None => fresh_flags target xs rs
    end.
Proof. reflexivity. Qed.

(** Once the node exists, no request for it is fresh until a [reset]. *)
Lemma fresh_flags_all_false target xs : ∀ c,
  is_get_or_insert target = true →
  CReset ∉ xs →
  has_entry target c = true →
  Forall (λ b, b = false) (fresh_flags target xs (result (run xs c))).
Proof.
  induction xs as [|x xs IH]; intros c Hg Hr Hc.
  - constructor.
  - apply not_elem_of_cons in Hr as [Hx Hr].
    destruct (run_cons x xs c) as (-> & _ & _). rewrite fresh_flags_cons.
    destruct (decide (x = target)) as [->|Hne].
    + destruct (has_entry_call_same target c Hg) as [Hafter ->].
      rewrite Hc. constructor; [done | by apply IH].
    + unfold fresh_flag at 1. rewrite decide_False by done.
      apply IH; [done..|]. by rewrite has_entry_call_other.
Qed.

(** From a cache without the node, the first request for it is the only
    fresh one until a [reset]. *)
Lemma fresh_flags_first_only target xs : ∀ c,
  is_get_or_insert target = true →
  CReset ∉ xs →
  has_entry target c = false →
  first_only (fresh_flags target xs (result (run xs c))).
Proof.
  induction xs as [|x xs IH]; intros c Hg Hr Hc.
  - exact I.
  - apply not_elem_of_cons in Hr as [Hx Hr].
    destruct (run_cons x xs c) as (-> & _ & _). rewrite fresh_flags_cons.
    destruct (decide (x = target)) as [->|Hne].
    + destruct (has_entry_call_same target c Hg) as [Hafter ->].
      rewrite Hc. split; [done|]. by apply fresh_flags_all_false.
    + unfold fresh_flag at 1. rewrite decide_False by done.
      apply IH; [done..|]. by rewrite has_entry_call_other.
Qed.

Lemma has_entry_program_false k c :
  program_entry k c = None → has_entry (CGetOrInsertProgram k) c = false.
Proof.
  intros Hk. simpl. rewrite Hk. apply bool_decide_eq_false_2.
  by intros [? ?].
Qed.

Lemma has_entry_kernel_false p n c :
  kernel_entry (p, n) c = None → has_entry (CGetOrInsertKernel p n) c = false.
Proof.
  intros Hk. simpl. rewrite Hk. apply bool_decide_eq_false_2.
  by intros [? ?].
Qed.

(** ** Get-or-insert *)

(** C1. For a program key, and for a (program, kernel name) pair:
    get-or-insert on a key that has a node returns that node with [false]
    and leaves the cache as it was; on a key without a node it returns
    [true] and the node of the key is then a new build result in state
    [BS_InProgress] with a null [Ptr] (and no error), the nodes of the other
    keys being untouched.  In a sequence of calls without [reset], started
    from a cache where the key has no node, only the first get-or-insert of
    the key returns [true]; started from a cache where the key has a node,
    none does. *)
Theorem getOrInsert_fresh_exactly_once
    (k : ProgramCacheKeyT) (p : PiProgram) (n : string)
    (c : KernelProgramCache) :
  (∀ e, program_entry k c = Some e →
        result (getOrInsertProgram k c) = (k, false)
        ∧ after (getOrInsertProgram k c) = c
        ∧ program_entry (result (getOrInsertProgram k c)).1
            (after (getOrInsertProgram k c)) = Some e)
  ∧ (program_entry k c = None →
     result (getOrInsertProgram k c) = (k, true)
     ∧ (∃ e, program_entry (result (getOrInsertProgram k c)).1
               (after (getOrInsertProgram k c)) = Some e
             ∧ State e = BS_InProgress ∧ Ptr e = nullptr
             ∧ isFilledIn (Error e) = false)
     ∧ ∀ j, j ≠ k →
         program_entry j (after (getOrInsertProgram k c)) = program_entry j c)
  ∧ (∀ e, kernel_entry (p, n) c = Some e →
        result (getOrInsertKernel p n c) = ((p, n), false)
        ∧ after (getOrInsertKernel p n c) = c
        ∧ kernel_entry (result (getOrInsertKernel p n c)).1
            (after (getOrInsertKernel p n c)) = Some e)
  ∧ (kernel_entry (p, n) c = None →
     result (getOrInsertKernel p n c) = ((p, n), true)
     ∧ (∃ e, kernel_entry (result (getOrInsertKernel p n c)).1
               (after (getOrInsertKernel p n c)) = Some e
             ∧ State e = BS_InProgress ∧ Ptr e = nullptr
             ∧ isFilledIn (Error e) = false)
     ∧ ∀ j, j ≠ (p, n) →
         kernel_entry j (after (getOrInsertKernel p n c)) = kernel_entry j c)
  ∧ (∀ xs, CReset ∉ xs → program_entry k c = None →
       first_only
         (fresh_flags (CGetOrInsertProgram k) xs (result (run xs c))))
  ∧ (∀ xs, CReset ∉ xs → kernel_entry (p, n) c = None →
       first_only
         (fresh_flags (CGetOrInsertKernel p n) xs (result (run xs c))))
  ∧ (∀ xs e, CReset ∉ xs → program_entry k c = Some e →
       Forall (λ b, b = false)
         (fresh_flags (CGetOrInsertProgram k) xs (result (run xs c))))
  ∧ (∀ xs e, CReset ∉ xs → kernel_entry (p, n) c = Some e →
       Forall (λ b, b = false)
         (fresh_flags (CGetOrInsertKernel p n) xs (result (run xs c)))).
Proof.
  repeat split.
  - by rewrite (getOrInsertProgram_hit _ _ _ H).
  - by rewrite (getOrInsertProgram_hit _ _ _ H).
  - by rewrite (getOrInsertProgram_hit _ _ _ H).
  - by rewrite (getOrInsertProgram_miss _ _ H).
  - exists (BuildResult_ctor nullptr BS_InProgress).
    rewrite (getOrInsertProgram_miss _ _ H).
    unfold result, after, program_entry; simpl.
    by rewrite lookup_insert_eq.
  - intros j Hj. rewrite program_entry_getOrInsertProgram.
    by rewrite decide_False.
  - by rewrite (getOrInsertKernel_hit _ _ _ _ H).
  - by rewrite (getOrInsertKernel_hit _ _ _ _ H).
  - by rewrite (getOrInsertKernel_hit _ _ _ _ H).
  - by rewrite (getOrInsertKernel_miss _ _ _ H).
  - exists (BuildResult_ctor nullptr BS_InProgress).
    replace (result (getOrInsertKernel p n c)).1 with (p, n)
      by (by rewrite (getOrInsertKernel_miss _ _ _ H)).
    rewrite kernel_entry_getOrInsertKernel.
    rewrite decide_True by done. by rewrite H.
  - intros [p' n'] Hj. rewrite kernel_entry_getOrInsertKernel.
    by rewrite decide_False.
  - intros xs Hr Hk. apply fresh_flags_first_only; [done..|].
    by apply has_entry_program_false.
  - intros xs Hr Hk. apply fresh_flags_first_only; [done..|].
    by apply has_entry_kernel_false.
  - intros xs e Hr Hk. apply fresh_flags_all_false; [done..|].
    simpl. rewrite Hk. by apply bool_decide_eq_true_2.
  - intros xs e Hr Hk. apply fresh_flags_all_false; [done..|].
    simpl. rewrite Hk. by apply bool_decide_eq_true_2.
Qed.

Lemma sample_calls_no_reset : CReset ∉ sample_calls.
Proof.
  unfold sample_calls. intros Hin.
  repeat (apply elem_of_cons in Hin as [Hin|Hin]; [discriminate|]).
  by apply elem_of_nil in Hin.
Qed.

Lemma getOrInsert_fresh_exactly_once_witness :
  result (getOrInsertProgram sample_key_O2 sample_cache_warm)
  = (sample_key_O2, false)
  ∧ result (getOrInsertProgram sample_key_O2 sample_cache)
    = (sample_key_O2, true)
  ∧ result (getOrInsertKernel 3%N "saxpy" sample_cache_warm)
    = ((3%N, "saxpy"%string), false)
  ∧ result (getOrInsertKernel 3%N "saxpy" sample_cache)
    = ((3%N, "saxpy"%string), true)
  ∧ first_only (fresh_flags (CGetOrInsertProgram sample_key_O2) sample_calls
                  (result (run sample_calls sample_cache)))
  ∧ first_only (fresh_flags (CGetOrInsertKernel 3%N "saxpy") sample_calls
                  (result (run sample_calls sample_cache))).
Proof.
  destruct (getOrInsert_fresh_exactly_once sample_key_O2 3%N "saxpy"
              sample_cache) as (_ & Hmiss & _ & Hkmiss & Hseq & Hkseq & _).
  destruct (getOrInsert_fresh_exactly_once sample_key_O2 3%N "saxpy"
              sample_cache_warm) as (Hhit & _ & Hkhit & _).
  split; [|split; [|split; [|split; [|split]]]].
  - apply (Hhit (BuildResult_ctor nullptr BS_InProgress)).
    vm_compute. reflexivity.
  - apply Hmiss. vm_compute. reflexivity.
  - apply (Hkhit (BuildResult_ctor nullptr BS_InProgress)).
    vm_compute. reflexivity.
  - apply Hkmiss. vm_compute. reflexivity.
  - apply Hseq; [exact sample_calls_no_reset | vm_compute; reflexivity].
  - apply Hkseq; [exact sample_calls_no_reset | vm_compute; reflexivity].
Defined.

(** ** Waiting for a build result *)

Lemma built_or_failed_true {T} (br : BuildResult T) :
  built_or_failed br = true ↔ State br = BS_Done ∨ State br = BS_Failed.
Proof.
  unfold built_or_failed. destruct (State br); simpl; split; intros H;
    try done; auto; by destruct H.
Qed.

Lemma cv_wait_now {St} (Pred : St → bool) wakeups now :
  Pred now = true → cv_wait Pred wakeups now = (Some now, [EvPred true]).
Proof. intros Hp. destruct wakeups; simpl; by rewrite Hp. Qed.

Lemma cv_wait_later {St} (Pred : St → bool) s rest now :
  Pred now = false →
  cv_wait Pred (s :: rest) now
  = ((cv_wait Pred rest s).1,
     EvPred false :: EvCvWait :: (cv_wait Pred rest s).2).
Proof. intros Hp. simpl. by rewrite Hp. Qed.

(** The wait ends on a content of the build result that satisfies the
    predicate, after as many blocking rounds as there were contents that did
    not; the predicate is evaluated before the first wait and after each. *)
Lemma cv_wait_shape {St} (Pred : St → bool) wakeups : ∀ now,
  match (cv_wait Pred wakeups now).1 with
  | Some s =>
      s ∈ now :: wakeups ∧ Pred s = true
      ∧ ∃ n, n ≤ length wakeups
             ∧ (cv_wait Pred wakeups now).2 = wait_rounds n ++ [EvPred true]
  | None =>
      Forall (λ s, Pred s = false) (now :: wakeups)
      ∧ (cv_wait Pred wakeups now).2 = wait_rounds (S (length wakeups))
  end.
Proof.
  induction wakeups as [|s rest IH]; intros now.
  - simpl. destruct (Pred now) eqn:Hp; simpl.
    + split; [by left|]. split; [done|]. by exists 0%nat.
    + split; [by repeat constructor | done].
  - destruct (Pred now) eqn:Hp.
    + rewrite (cv_wait_now _ _ _ Hp). simpl.
      split; [by left|]. split; [done|]. exists 0%nat. split; [lia | done].
    + rewrite (cv_wait_later _ _ _ _ Hp). simpl. specialize (IH s).
      destruct (cv_wait Pred rest s).1 as [s'|].
      * destruct IH as (Hin & Hs' & n & Hn & ->).
        split; [by right|]. split; [done|].
        exists (S n). split; [simpl; lia | done].
      * destruct IH as (Hall & ->). split; [by constructor | done].
Qed.

(** The reads that follow the wait: the content tested for an error and
    the content the error or the pointer is taken from. *)
Lemma cv_wait_now_unread {St} (Pred : St → bool) wakeups now :
  Pred now = true → cv_unread Pred wakeups now = wakeups.
Proof. intros Hp. destruct wakeups; simpl; by rewrite Hp. Qed.

Lemma cv_wait_later_unread {St} (Pred : St → bool) s rest now :
  Pred now = false → cv_unread Pred (s :: rest) now = cv_unread Pred rest s.
Proof. intros Hp. simpl. by rewrite Hp. Qed.

(** On a build result that is already built or failed the function ends at
    once: one evaluation of the predicate under the lock, no wait. *)
Lemma waitUntilBuilt_terminal `{BuildException E} {RetT}
    (br : BuildResult RetT) wakeups :
  State br = BS_Done ∨ State br = BS_Failed →
  waitUntilBuilt (E := E) br wakeups
  = (if isFilledIn (Error (default br (head wakeups)))
     then Thrown (make_exception
                    (Msg (Error (default (default br (head wakeups))
                                         (head (tail wakeups)))))
                    (Code (Error (default (default br (head wakeups))
                                          (head (tail wakeups))))))
     else Returned (Ptr (default (default br (head wakeups))
                                 (head (tail wakeups)))),
     [EvLock MBuildResultMutex; EvPred true; EvUnlock MBuildResultMutex]).
Proof.
  intros Hst%built_or_failed_true.
  unfold waitUntilBuilt, waitUntilBuilt_pred.
  rewrite (cv_wait_now _ _ _ Hst), (cv_wait_now_unread _ _ _ Hst). simpl.
  by destruct (isFilledIn (Error (default br (head wakeups)))).
Qed.

(** A waiter that arrived while the build was in progress and is woken:
    it goes on as a waiter that arrives at the next content. *)
Lemma waitUntilBuilt_skip `{BuildException E} {RetT}
    (br0 br : BuildResult RetT) wakeups :
  built_or_failed br0 = false →
  (waitUntilBuilt (E := E) br0 (br :: wakeups)).1
  = (waitUntilBuilt (E := E) br wakeups).1.
Proof.
  intros Hp.
  unfold waitUntilBuilt, waitUntilBuilt_pred.
  rewrite (cv_wait_later _ _ _ _ Hp), (cv_wait_later_unread _ _ _ _ Hp).
  cbn [fst snd].
  destruct (cv_wait built_or_failed wakeups br).1 as [s|]; [|done].
  cbn [fst snd].
  by destruct (isFilledIn _).
Qed.


(** The outcome in terms of the content on which the wait ended and of the
    contents that follow it. *)
Lemma waitUntilBuilt_outcome `{BuildException E} {RetT}
    (br : BuildResult RetT) wakeups :
  (waitUntilBuilt (E := E) br wakeups).1
  = match (cv_wait built_or_failed wakeups br).1 with
    | None => Blocked
    | Some br' =>
        let later := cv_unread built_or_failed wakeups br in
        let atCheck := default br' (head later) in
        let atUse := default atCheck (head (tail later)) in
        if isFilledIn (Error atCheck)
        then Thrown (make_exception (Msg (Error atUse)) (Code (Error atUse)))
        else Returned (Ptr atUse)
    end.
Proof.
  unfold waitUntilBuilt, waitUntilBuilt_pred.
  destruct (cv_wait built_or_failed wakeups br).1 as [br'|]; simpl; [|done].
  by destruct (isFilledIn _).
Qed.

Lemma waitUntilBuilt_trace `{BuildException E} {RetT}
    (br : BuildResult RetT) wakeups :
  (waitUntilBuilt (E := E) br wakeups).2
  = EvLock MBuildResultMutex :: (cv_wait built_or_failed wakeups br).2
    ++ match (cv_wait built_or_failed wakeups br).1 with
       | None => []
       | Some _ => [EvUnlock MBuildResultMutex]
       end.
Proof.
  unfold waitUntilBuilt, waitUntilBuilt_pred.
  destruct (cv_wait built_or_failed wakeups br).1 as [br'|]; simpl.
  - by destruct (isFilledIn _).
  - by rewrite app_nil_r.
Qed.

(** The contents that follow the wait are among those the waiter reads. *)
Lemma cv_unread_subseteq {St} (Pred : St → bool) wakeups : ∀ now s,
  s ∈ cv_unread Pred wakeups now → s ∈ wakeups.
Proof.
  induction wakeups as [|w rest IH]; intros now s; simpl.
  - by destruct (Pred now).
  - destruct (Pred now); [done|]. intros Hin. right. by eapply IH.
Qed.

Lemma elem_of_default_head {A} (x d : A) (l : list A) :
  x = default d (head l) → x = d ∨ x ∈ l.
Proof. destruct l as [|y l]; simpl; intros ->; [by left | right; by left]. Qed.

Lemma same_reads_true {T} (s t : BuildResult T) :
  same_reads s t = true ↔
  Ptr t = Ptr s ∧ State t = State s ∧ Error t = Error s.
Proof.
  unfold same_reads. rewrite !andb_true_iff, !bool_decide_eq_true. tauto.
Qed.

(** On a build result that is not written any more the reads after the
    lock see what the predicate saw. *)
Lemma same_reads_default_head {T} (s : BuildResult T) later :
  forallb (same_reads s) later = true →
  same_reads s (default s (head later)) = true
  ∧ same_reads s (default (default s (head later)) (head (tail later))) = true.
Proof.
  assert (same_reads s s = true) as Hrefl by by apply same_reads_true.
  destruct later as [|a [|b later]]; simpl; rewrite ?andb_true_iff;
    [done | by intros [? _] | by intros (? & ? & _)].
Qed.

Lemma waitUntilBuilt_settled `{BuildException E} {RetT} wakeups :
  ∀ (br : BuildResult RetT) s,
  stays_once_built (br :: wakeups) = true →
  (cv_wait built_or_failed wakeups br).1 = Some s →
  (waitUntilBuilt (E := E) br wakeups).1
  = if isFilledIn (Error s)
    then Thrown (make_exception (Msg (Error s)) (Code (Error s)))
    else Returned (Ptr s).
Proof.
  induction wakeups as [|w rest IH]; intros br s Hstay Hs.
  - simpl in Hstay, Hs. destruct (built_or_failed br) eqn:Hp; [|done].
    injection Hs as <-. rewrite waitUntilBuilt_terminal
      by by apply built_or_failed_true.
    done.
  - cbn [stays_once_built] in Hstay.
    destruct (built_or_failed br) eqn:Hp.
    + rewrite (cv_wait_now _ _ _ Hp) in Hs. injection Hs as <-.
      rewrite waitUntilBuilt_terminal by by apply built_or_failed_true.
      destruct (same_reads_default_head br (w :: rest) Hstay)
        as [(_ & _ & Ha)%same_reads_true (Hb & _ & Hc)%same_reads_true].
      cbn [fst]. by rewrite Ha, Hb, Hc.
    + rewrite (cv_wait_later _ _ _ _ Hp) in Hs. cbn [fst] in Hs.
      rewrite waitUntilBuilt_skip by done.
      by apply IH.
Qed.


Lemma isFilledIn_false (e : BuildError) :
  isFilledIn e = false ↔ Msg e = EmptyString.
Proof. unfold isFilledIn. by destruct (Msg e). Qed.




(** C3. A waiter that calls [waitUntilBuilt] on a build result that is
    already built or failed ends at once: the lock is taken, the predicate
    is evaluated once and holds, the lock is released; the condition
    variable is never waited on and the call is not left blocked.  In every
    call the predicate is evaluated under the lock before the first wait and
    again after every wakeup: the events are the lock, some rounds of a
    false predicate followed by a wait, and, unless the waiter is still
    blocked, a true predicate and the unlock. *)
Theorem waitUntilBuilt_no_missed_wakeup `{BuildException E} {RetT}
    (br : BuildResult RetT) (wakeups : list (BuildResult RetT)) :
  (State br = BS_Done ∨ State br = BS_Failed →
     (waitUntilBuilt (E := E) br wakeups).2
     = [EvLock MBuildResultMutex; EvPred true; EvUnlock MBuildResultMutex]
     ∧ (EvCvWait ∉ (waitUntilBuilt (E := E) br wakeups).2)
     ∧ (waitUntilBuilt (E := E) br wakeups).1 ≠ Blocked)
  ∧ ∃ n, n ≤ S (length wakeups)
         ∧ (waitUntilBuilt (E := E) br wakeups).2
           = EvLock MBuildResultMutex :: wait_rounds n
             ++ match (waitUntilBuilt (E := E) br wakeups).1 with
                | Blocked => []
                | _ => [EvPred true; EvUnlock MBuildResultMutex]
                end.
Proof.
  split.
  - intros Hterm. rewrite (waitUntilBuilt_terminal br wakeups Hterm).
    cbn [fst snd]. split; [done|]. split.
    + intros Hin.
      repeat (apply elem_of_cons in Hin as [Hin|Hin]; [discriminate|]).
      by apply elem_of_nil in Hin.
    + by destruct (isFilledIn _).
  - rewrite waitUntilBuilt_trace, waitUntilBuilt_outcome.
    pose proof (cv_wait_shape (@built_or_failed RetT) wakeups br) as Hshape.
    destruct (cv_wait built_or_failed wakeups br).1 as [br'|].
    + destruct Hshape as (_ & _ & n & Hn & ->).
      exists n. split; [lia|]. rewrite <- app_assoc. cbv zeta.
      by destruct (isFilledIn _).
    + destruct Hshape as (_ & ->). exists (S (length wakeups)).
      split; [lia | done].
Qed.

Lemma waitUntilBuilt_no_missed_wakeup_witness :
  (waitUntilBuilt (E := compile_program_error) sample_done
     [sample_done; sample_done]).2
  = [EvLock MBuildResultMutex; EvPred true; EvUnlock MBuildResultMutex]
  ∧ (waitUntilBuilt (E := compile_program_error) sample_failed []).1
    ≠ Blocked.
Proof.
  split.
  - apply (waitUntilBuilt_no_missed_wakeup (E := compile_program_error)
             sample_done [sample_done; sample_done]).
    left. reflexivity.
  - apply (waitUntilBuilt_no_missed_wakeup (E := compile_program_error)
             sample_failed []).
    right. reflexivity.
Defined.

(** ** The ready pointer is set exactly on built results *)



Lemma after_call_reset c :
  after (call CReset c)
  = {| MCachedPrograms := ProgramCache_empty;
       MKernelsPerProgramCache := ∅;
       MParentContext := MParentContext c;
       MKernelFastCache := ∅ |}.
Proof. destruct c. reflexivity. Qed.







(** ** The fast kernel cache *)

Lemma saveKernel_eq k v c :
  saveKernel k v c
  = (tt,
     {| MCachedPrograms := MCachedPrograms c;
        MKernelsPerProgramCache := MKernelsPerProgramCache c;
        MParentContext := MParentContext c;
        MKernelFastCache := (map_emplace k v (MKernelFastCache c)).1 |},
     [EvLock MKernelFastCacheMutex; EvUnlock MKernelFastCacheMutex]).
Proof. destruct c. reflexivity. Qed.

Lemma tryToGetKernelFast_eq k c :
  tryToGetKernelFast k c
  = (match MKernelFastCache c !! k with
     | Some second => second
     | None => (nullptr, nullptr, nullptr, nullptr)
     end, c,
     [EvLock MKernelFastCacheMutex; EvUnlock MKernelFastCacheMutex]).
Proof. destruct c. reflexivity. Qed.

Lemma saveKernel_present k v v0 c :
  MKernelFastCache c !! k = Some v0 → after (saveKernel k v c) = c.
Proof.
  intros Hk. rewrite saveKernel_eq. unfold after; simpl.
  rewrite (map_emplace_Some _ _ _ _ Hk). by destruct c.
Qed.

Lemma saveKernel_absent k v c :
  MKernelFastCache c !! k = None →
  MKernelFastCache (after (saveKernel k v c)) = <[k := v]> (MKernelFastCache c).
Proof.
  intros Hk. rewrite saveKernel_eq. unfold after; simpl.
  by rewrite (map_emplace_None _ _ _ Hk).
Qed.

Lemma saveKernel_lookup k v c :
  MKernelFastCache (after (saveKernel k v c)) !! k
  = Some (default v (MKernelFastCache c !! k)).
Proof. rewrite saveKernel_eq. unfold after; simpl. apply map_emplace_lookup. Qed.

(** A second [saveKernel] for a key is discarded. *)
Lemma saveKernel_twice k v1 v2 c :
  after (saveKernel k v2 (after (saveKernel k v1 c)))
  = after (saveKernel k v1 c).
Proof.
  eapply saveKernel_present. apply saveKernel_lookup.
Qed.

(** C5. [saveKernel] on a key that is in the fast cache leaves the cache as
    it was; on a key that is not, it adds the pair, and nothing else.  Hence
    after [saveKernel(key, v1)] then [saveKernel(key, v2)] on a cache without
    [key], the cache has one more node, the node of [key], which holds [v1];
    the second call changes nothing, whatever the cache, and so does a
    repeated call with the same value. *)
Theorem saveKernel_first_writer_wins
    (k : KernelFastCacheKeyT) (v0 v1 v2 : KernelFastCacheValT)
    (c : KernelProgramCache) :
  (MKernelFastCache c !! k = Some v0 → after (saveKernel k v1 c) = c)
  ∧ (MKernelFastCache c !! k = None →
     MKernelFastCache (after (saveKernel k v1 c))
     = <[k := v1]> (MKernelFastCache c)
     ∧ MKernelFastCache (after (saveKernel k v2 (after (saveKernel k v1 c))))
       = <[k := v1]> (MKernelFastCache c)
     ∧ MKernelFastCache (after (saveKernel k v2 (after (saveKernel k v1 c))))
         !! k = Some v1
     ∧ size (MKernelFastCache
               (after (saveKernel k v2 (after (saveKernel k v1 c)))))
       = S (size (MKernelFastCache c)))
  ∧ after (saveKernel k v2 (after (saveKernel k v1 c)))
    = after (saveKernel k v1 c)
  ∧ after (saveKernel k v1 (after (saveKernel k v1 c)))
    = after (saveKernel k v1 c)
  ∧ MCachedPrograms (after (saveKernel k v1 c)) = MCachedPrograms c
  ∧ MKernelsPerProgramCache (after (saveKernel k v1 c))
    = MKernelsPerProgramCache c.
Proof.
  split; [apply saveKernel_present|].
  split; [|split; [apply saveKernel_twice|split; [apply saveKernel_twice|]]].
  - intros Hk. rewrite saveKernel_twice, (saveKernel_absent _ _ _ Hk).
    split; [done|]. split; [done|]. split.
    + apply lookup_insert_eq.
    + by apply map_size_insert_None.
  - by rewrite saveKernel_eq.
Qed.

Lemma saveKernel_first_writer_wins_witness :
  MKernelFastCache
    (after (saveKernel sample_fast_key (21%N, 22%N, 23%N, 3%N)
              (after (saveKernel sample_fast_key (11%N, 12%N, 13%N, 3%N)
                        sample_cache)))) !! sample_fast_key
  = Some (11%N, 12%N, 13%N, 3%N)
  ∧ after (saveKernel sample_fast_key (21%N, 22%N, 23%N, 3%N)
             (after (run sample_calls sample_cache)))
    = after (run sample_calls sample_cache).
Proof.
  destruct (saveKernel_first_writer_wins sample_fast_key
              (0%N, 0%N, 0%N, 0%N) (11%N, 12%N, 13%N, 3%N)
              (21%N, 22%N, 23%N, 3%N) sample_cache)
    as (_ & Habsent & _).
  destruct (saveKernel_first_writer_wins sample_fast_key
              (11%N, 12%N, 13%N, 3%N) (21%N, 22%N, 23%N, 3%N)
              (21%N, 22%N, 23%N, 3%N) (after (run sample_calls sample_cache)))
    as (Hpresent & _).
  split.
  - destruct Habsent as (_ & _ & Hlookup & _); [vm_compute; reflexivity|].
    exact Hlookup.
  - apply Hpresent. vm_compute. reflexivity.
Defined.

(** C6. [tryToGetKernelFast] changes nothing; it returns the stored tuple
    when the key is in the fast cache and four null pointers when it is not,
    so a result other than four null pointers is the tuple stored for the
    key; and on a cache without the key, [saveKernel(key, v)] followed by
    [tryToGetKernelFast(key)] returns [v]. *)
Theorem tryToGetKernelFast_roundtrip
    (k : KernelFastCacheKeyT) (v : KernelFastCacheValT)
    (c : KernelProgramCache) :
  (∀ v0, MKernelFastCache c !! k = Some v0 →
         result (tryToGetKernelFast k c) = v0)
  ∧ (MKernelFastCache c !! k = None →
     result (tryToGetKernelFast k c) = (nullptr, nullptr, nullptr, nullptr))
  ∧ (result (tryToGetKernelFast k c) ≠ (nullptr, nullptr, nullptr, nullptr) →
     MKernelFastCache c !! k = Some (result (tryToGetKernelFast k c)))
  ∧ after (tryToGetKernelFast k c) = c
  ∧ (MKernelFastCache c !! k = None →
     result (tryToGetKernelFast k (after (saveKernel k v c))) = v).
Proof.
  rewrite !tryToGetKernelFast_eq. unfold result, after. cbn [fst snd].
  split; [by intros v0 ->|]. split; [by intros ->|].
  split; [by destruct (MKernelFastCache c !! k)|].
  split; [done|].
  intros Hk. fold (after (saveKernel k v c)).
  by rewrite saveKernel_lookup, Hk.
Qed.

Lemma tryToGetKernelFast_roundtrip_witness :
  result (tryToGetKernelFast sample_fast_key sample_cache)
  = (nullptr, nullptr, nullptr, nullptr)
  ∧ result (tryToGetKernelFast sample_fast_key
              (after (saveKernel sample_fast_key (11%N, 12%N, 13%N, 3%N)
                        sample_cache)))
    = (11%N, 12%N, 13%N, 3%N)
  ∧ result (tryToGetKernelFast sample_fast_key
              (after (run sample_calls sample_cache)))
    = (11%N, 12%N, 13%N, 3%N).
Proof.
  destruct (tryToGetKernelFast_roundtrip sample_fast_key
              (11%N, 12%N, 13%N, 3%N) sample_cache)
    as (_ & Hnone & _ & _ & Hround).
  destruct (tryToGetKernelFast_roundtrip sample_fast_key
              (11%N, 12%N, 13%N, 3%N) (after (run sample_calls sample_cache)))
    as (Hsome & _).
  split; [apply Hnone; vm_compute; reflexivity|].
  split; [apply Hround; vm_compute; reflexivity|].
  apply Hsome. vm_compute. reflexivity.
Defined.

(** ** The secondary index of the program cache *)

(** [multimap_emplace] adds one node and keeps the others in their order. *)
Lemma multimap_emplace_split `{Less K} {V} (k : K) (v : V) (m : multimap K V) :
  ∃ l1 l2, m = l1 ++ l2 ∧ multimap_emplace k v m = l1 ++ (k, v) :: l2.
Proof.
  induction m as [|kv rest IH]; simpl.
  - by exists [], [].
  - destruct (less k kv.1).
    + by exists [], (kv :: rest).
    + destruct IH as (l1 & l2 & -> & ->). by exists (kv :: l1), l2.
Qed.

Lemma multimap_emplace_perm `{Less K} {V} (k : K) (v : V) (m : multimap K V) :
  multimap_emplace k v m ≡ₚ (k, v) :: m.
Proof.
  destruct (multimap_emplace_split k v m) as (l1 & l2 & -> & ->).
  by rewrite Permutation_middle.
Qed.

Lemma multimap_emplace_size `{Less K} {V} (k : K) (v : V) (m : multimap K V) :
  multimap_size (multimap_emplace k v m) = S (multimap_size m).
Proof. unfold multimap_size. by rewrite multimap_emplace_perm. Qed.

(** C7. When [getOrInsertProgram] inserts the key ((obj, id), (dev, opts)),
    [KeyMap] gets exactly one new node, which maps the common key (id, dev)
    to the full key, the nodes it had staying in their order; when the key
    already had a node, [KeyMap] is left as it was. *)
Theorem getOrInsertProgram_records_common_key
    (obj : SerializedObj) (id : N) (dev : PiDevice) (opts : string)
    (c : KernelProgramCache) :
  (program_entry ((obj, id), (dev, opts)) c = None →
     (∃ l1 l2,
        KeyMap (MCachedPrograms c) = l1 ++ l2
        ∧ KeyMap (MCachedPrograms
                    (after (getOrInsertProgram ((obj, id), (dev, opts)) c)))
          = l1 ++ ((id, dev), ((obj, id), (dev, opts))) :: l2)
     ∧ multimap_size
         (KeyMap (MCachedPrograms
                    (after (getOrInsertProgram ((obj, id), (dev, opts)) c))))
       = S (multimap_size (KeyMap (MCachedPrograms c))))
  ∧ (∀ e, program_entry ((obj, id), (dev, opts)) c = Some e →
       KeyMap (MCachedPrograms
                 (after (getOrInsertProgram ((obj, id), (dev, opts)) c)))
       = KeyMap (MCachedPrograms c)).
Proof.
  split.
  - intros Hk. rewrite (getOrInsertProgram_miss _ _ Hk).
    unfold after; simpl. split.
    + apply multimap_emplace_split.
    + apply multimap_emplace_size.
  - intros e Hk. by rewrite (getOrInsertProgram_hit _ _ _ Hk).
Qed.

Lemma getOrInsertProgram_records_common_key_witness :
  KeyMap (MCachedPrograms (after (getOrInsertProgram sample_key_O2 sample_cache)))
  = [((5%N, 7%N), sample_key_O2)]
  ∧ KeyMap (MCachedPrograms
              (after (getOrInsertProgram sample_key_O2 sample_cache_warm)))
    = KeyMap (MCachedPrograms sample_cache_warm).
Proof.
  destruct (getOrInsertProgram_records_common_key
              [Byte.x7f; Byte.x45] 5%N 7%N "-O2" sample_cache)
    as (Hmiss & _).
  destruct (getOrInsertProgram_records_common_key
              [Byte.x7f; Byte.x45] 5%N 7%N "-O2" sample_cache_warm)
    as (_ & Hhit).
  split.
  - destruct Hmiss as ((l1 & l2 & Hold & Hnew) & _); [vm_compute; reflexivity|].
    apply eq_sym, app_eq_nil in Hold as [-> ->]. exact Hnew.
  - apply (Hhit (BuildResult_ctor nullptr BS_InProgress)).
    vm_compute. reflexivity.
Defined.

(** The flag of a request depends only on the node of the requested key. *)
Lemma getOrInsertProgram_flag k c :
  (result (getOrInsertProgram k c)).2
  = bool_decide (program_entry k c = None).
Proof.
  destruct (program_entry k c) as [e|] eqn:Hk.
  - by rewrite (getOrInsertProgram_hit _ _ _ Hk).
  - by rewrite (getOrInsertProgram_miss _ _ Hk).
Qed.

Lemma getOrInsertProgram_ref k c :
  (result (getOrInsertProgram k c)).1 = k.
Proof. destruct c as [[progs keys] kc ctx fc]. reflexivity. Qed.

Lemma getOrInsertProgram_size k c :
  program_entry k c = None →
  ProgramCache_size (MCachedPrograms (after (getOrInsertProgram k c)))
  = S (ProgramCache_size (MCachedPrograms c)).
Proof.
  intros Hk. rewrite (getOrInsertProgram_miss _ _ Hk).
  unfold after, ProgramCache_size; simpl. by apply map_size_insert_None.
Qed.

(** C8. Two program keys with the same module bytes, identity token and
    device but different build options are different keys: a request for
    one does not change the answer to a request for the other, and when
    neither has a node, requesting one and then the other returns [true]
    twice and two different nodes, both new build results, and the program
    cache has two more nodes. *)
Theorem getOrInsertProgram_distinguishes_options
    (obj : SerializedObj) (id : N) (dev : PiDevice) (opts1 opts2 : string)
    (c : KernelProgramCache) :
  opts1 ≠ opts2 →
  (result (getOrInsertProgram ((obj, id), (dev, opts2))
             (after (getOrInsertProgram ((obj, id), (dev, opts1)) c)))).2
  = (result (getOrInsertProgram ((obj, id), (dev, opts2)) c)).2
  ∧ (program_entry ((obj, id), (dev, opts1)) c = None →
     program_entry ((obj, id), (dev, opts2)) c = None →
     let r1 := getOrInsertProgram ((obj, id), (dev, opts1)) c in
     let r2 := getOrInsertProgram ((obj, id), (dev, opts2)) (after r1) in
     (result r1).2 = true ∧ (result r2).2 = true
     ∧ (result r1).1 ≠ (result r2).1
     ∧ program_entry (result r1).1 (after r2)
       = Some (BuildResult_ctor nullptr BS_InProgress)
     ∧ program_entry (result r2).1 (after r2)
       = Some (BuildResult_ctor nullptr BS_InProgress)
     ∧ ProgramCache_size (MCachedPrograms (after r2))
       = S (S (ProgramCache_size (MCachedPrograms c)))).
Proof.
  intros Hopts.
  set (k1 := ((obj, id), (dev, opts1))). set (k2 := ((obj, id), (dev, opts2))).
  assert (k1 ≠ k2) as Hne by (unfold k1, k2; congruence).
  assert (∀ c', program_entry k2 (after (getOrInsertProgram k1 c'))
                = program_entry k2 c') as Hframe.
  { intros c'. rewrite program_entry_getOrInsertProgram.
    by rewrite decide_False. }
  split.
  - by rewrite !getOrInsertProgram_flag, Hframe.
  - intros H1 H2. cbv zeta.
    assert (program_entry k2 (after (getOrInsertProgram k1 c)) = None) as H2'
      by by rewrite Hframe.
    rewrite !getOrInsertProgram_flag, !getOrInsertProgram_ref.
    split; [by apply bool_decide_eq_true_2|].
    split; [by apply bool_decide_eq_true_2|]. split; [done|].
    split; [|split].
    + rewrite program_entry_getOrInsertProgram, decide_False by done.
      by rewrite program_entry_getOrInsertProgram, decide_True, H1.
    + by rewrite program_entry_getOrInsertProgram, decide_True, H2'.
    + rewrite getOrInsertProgram_size by done.
      by rewrite getOrInsertProgram_size.
Qed.

Lemma getOrInsertProgram_distinguishes_options_witness :
  (result (getOrInsertProgram sample_key_O3
             (after (getOrInsertProgram sample_key_O2 sample_cache)))).2
  = true
  ∧ ProgramCache_size
      (MCachedPrograms
         (after (getOrInsertProgram sample_key_O3
                   (after (getOrInsertProgram sample_key_O2 sample_cache)))))
    = 2.
Proof.
  destruct (getOrInsertProgram_distinguishes_options
              [Byte.x7f; Byte.x45] 5%N 7%N "-O2" "-O3" sample_cache)
    as (_ & Hboth); [discriminate|].
  destruct Hboth as (_ & Hfresh & _ & _ & _ & Hsize);
    [vm_compute; reflexivity..|].
  split; [exact Hfresh | exact Hsize].
Defined.

(** ** The program cache and its index stay in sync *)

Lemma KeyMap_in_sync_empty : KeyMap_in_sync ProgramCache_empty.
Proof. unfold KeyMap_in_sync. simpl. by rewrite map_to_list_empty. Qed.

Lemma programs_call_other x c :
  (∀ k, x ≠ CGetOrInsertProgram k) → x ≠ CReset →
  MCachedPrograms (after (call x c)) = MCachedPrograms c.
Proof.
  intros Hx Hr. destruct x as [k| | | | |]; try done; try by destruct c.
  by destruct (Hx k).
Qed.

Lemma call_preserves_KeyMap_in_sync x c :
  KeyMap_in_sync (MCachedPrograms c) →
  KeyMap_in_sync (MCachedPrograms (after (call x c))).
Proof.
  intros Hc. destruct (decide (x = CReset)) as [->|Hr].
  { rewrite after_call_reset. apply KeyMap_in_sync_empty. }
  destruct x as [k| | | | |];
    try (rewrite programs_call_other by done; exact Hc).
  unfold call. rewrite fmap_Op. unfold after at 1. cbn [fst snd].
  destruct (program_entry k c) as [e|] eqn:Hk.
  - by rewrite (getOrInsertProgram_hit _ _ _ Hk).
  - rewrite (getOrInsertProgram_miss _ _ Hk).
    unfold after, KeyMap_in_sync in *; simpl.
    rewrite multimap_emplace_perm, (map_to_list_insert _ _ _ Hk), Hc.
    done.
Qed.

Lemma run_preserves_KeyMap_in_sync xs : ∀ c,
  KeyMap_in_sync (MCachedPrograms c) →
  KeyMap_in_sync (MCachedPrograms (after (run xs c))).
Proof.
  induction xs as [|x xs IH]; intros c Hc.
  - exact Hc.
  - destruct (run_cons x xs c) as (_ & -> & _).
    apply IH. by apply call_preserves_KeyMap_in_sync.
Qed.

(** C10. After any sequence of calls of the member functions on a cache
    object that started with empty maps, and so after any sequence of
    [getOrInsertProgram] and [reset], [KeyMap] has exactly one node per key
    of [Cache]: it is a rearrangement of the nodes (common key of the key,
    key) of the keys of [Cache], it has no node twice, a pair is a node of it
    exactly when its second part is a key of [Cache] and its first part the
    common key of that key, and the two maps have the same number of
    nodes. *)
Theorem KeyMap_matches_Cache (xs : list Call) (ctx : ContextPtr) :
  let pc := MCachedPrograms (after (run xs (KernelProgramCache_init ctx))) in
  KeyMap pc ≡ₚ common_key_node <$> (map_to_list (Cache pc)).*1
  ∧ NoDup (KeyMap pc)
  ∧ (∀ ck k, (ck, k) ∈ KeyMap pc
             ↔ is_Some (Cache pc !! k) ∧ ck = (k.1.2, k.2.1))
  ∧ multimap_size (KeyMap pc) = ProgramCache_size pc.
Proof.
  intros pc.
  assert (KeyMap_in_sync pc) as Hsync.
  { apply run_preserves_KeyMap_in_sync, KeyMap_in_sync_empty. }
  unfold KeyMap_in_sync in Hsync. split; [exact Hsync|]. split; [|split].
  - rewrite Hsync. apply NoDup_fmap_2; [apply _|].
    apply NoDup_fst_map_to_list.
  - intros ck k. rewrite Hsync, list_elem_of_fmap. split.
    + intros (k' & [= -> ->] & Hin).
      apply list_elem_of_fmap in Hin as ([k'' e] & -> & Hin).
      apply elem_of_map_to_list in Hin. simpl. eauto.
    + intros ([e He] & ->). exists k. split; [done|].
      apply list_elem_of_fmap. exists (k, e). split; [done|].
      by apply elem_of_map_to_list.
  - unfold multimap_size, ProgramCache_size.
    by rewrite Hsync, !length_fmap, length_map_to_list.
Qed.

(** ** Reset *)

Lemma reset_eq c :
  reset c
  = (tt,
     {| MCachedPrograms := ProgramCache_empty;
        MKernelsPerProgramCache := ∅;
        MParentContext := MParentContext c;
        MKernelFastCache := ∅ |},
     []).
Proof. destruct c. reflexivity. Qed.

(** The member functions that take a mutex take their own one only. *)
Lemma member_functions_lock k p n fk fv c :
  acquired (trace (getOrInsertProgram k c)) = [MProgramCacheMutex]
  ∧ acquired (trace (getOrInsertKernel p n c)) = [MKernelsPerProgramCacheMutex]
  ∧ acquired (trace (tryToGetKernelFast fk c)) = [MKernelFastCacheMutex]
  ∧ acquired (trace (saveKernel fk fv c)) = [MKernelFastCacheMutex].
Proof.
  rewrite tryToGetKernelFast_eq, saveKernel_eq.
  destruct c as [[progs keys] kc ctx fc]. done.
Qed.

(** C9, as stated, fails: [reset] takes no mutex at all, so the mutexes it
    takes are not the three cache mutexes in the order program cache,
    kernel cache, fast cache. *)
Lemma reset_takes_no_mutex :
  acquired (trace (reset sample_cache_warm))
  ≠ [MProgramCacheMutex; MKernelsPerProgramCacheMutex; MKernelFastCacheMutex].
Proof. rewrite reset_eq. discriminate. Qed.

(** C9, amended. [reset] empties the program cache together with its
    index, the kernel cache and the fast cache, and leaves the context
    pointer; it does so by plain assignments, without taking or releasing
    any mutex. *)
Theorem reset_clears_all_without_locks (c : KernelProgramCache) :
  Cache (MCachedPrograms (after (reset c))) = ∅
  ∧ KeyMap (MCachedPrograms (after (reset c))) = []
  ∧ ProgramCache_size (MCachedPrograms (after (reset c))) = 0
  ∧ MKernelsPerProgramCache (after (reset c)) = ∅
  ∧ MKernelFastCache (after (reset c)) = ∅
  ∧ MParentContext (after (reset c)) = MParentContext c
  ∧ (∀ k, program_entry k (after (reset c)) = None)
  ∧ (∀ r, kernel_entry r (after (reset c)) = None)
  ∧ (∀ fk, result (tryToGetKernelFast fk (after (reset c)))
           = (nullptr, nullptr, nullptr, nullptr))
  ∧ trace (reset c) = []
  ∧ acquired (trace (reset c)) = [].
Proof.
  rewrite reset_eq. unfold after, trace; simpl.
  repeat split; done.
Qed.

(** * Further properties of the cache *)

(** ** The wait on an arbitrary predicate *)

Lemma cv_wait_first {St} (Pred : St → bool) wakeups : ∀ now,
  cv_wait Pred wakeups now
  = match list_find (λ s, Pred s = true) (now :: wakeups) with
    | Some (i, s) => (Some s, wait_rounds i ++ [EvPred true])
    | None => (None, wait_rounds (S (length wakeups)))
    end.
Proof.
  induction wakeups as [|s rest IH]; intros now.
  - simpl. destruct (Pred now) eqn:Hp; by case_decide.
  - destruct (Pred now) eqn:Hp.
    + rewrite (cv_wait_now _ _ _ Hp). cbn [list_find].
      by rewrite decide_True.
    + rewrite (cv_wait_later _ _ _ _ Hp), IH.
      change (list_find (λ s0, Pred s0 = true) (now :: s :: rest))
        with (if decide (Pred now = true) then Some (0, now)
              else prod_map S id <$> list_find (λ s0, Pred s0 = true) (s :: rest)).
      rewrite decide_False by congruence.
      by destruct (list_find _ (s :: rest)) as [[i s']|].
Qed.

(** X1. [waitUntilBuilt(BR, Pred)] ends on the first content of the build
    result, in the order the waiter sees them, on which the predicate
    holds, after one blocking wait per content seen before it, and releases
    the lock; when the predicate holds on no content the waiter is still
    blocked in its last wait. *)
Theorem waitUntilBuilt_pred_first {T} (BR : BuildResult T)
    (Pred : BuildResult T → bool) (wakeups : list (BuildResult T)) :
  waitUntilBuilt_pred BR Pred wakeups
  = match list_find (λ s, Pred s = true) (BR :: wakeups) with
    | Some (i, s) =>
        (Some s, EvLock MBuildResultMutex :: wait_rounds i
                   ++ [EvPred true; EvUnlock MBuildResultMutex])
    | None =>
        (None, EvLock MBuildResultMutex :: wait_rounds (S (length wakeups)))
    end.
Proof.
  unfold waitUntilBuilt_pred. rewrite cv_wait_first.
  destruct (list_find _ (BR :: wakeups)) as [[i s]|]; simpl; [|done].
  by rewrite <- app_assoc.
Qed.

(** ** How a wait for a build result can end *)

Lemma built_or_failed_false {T} (br : BuildResult T) :
  built_or_failed br = false ↔ State br = BS_InProgress.
Proof. unfold built_or_failed. by destruct (State br). Qed.

(** X2. [waitUntilBuilt] leaves its caller blocked exactly when every
    content of the build result that the waiter sees is [BS_InProgress]: no
    wakeup releases a waiter while the build is in progress.  When it
    returns a pointer, one of the contents it read was built or failed, one
    had an empty error message, and the pointer is the [Ptr] of one; on a
    build result that is not written any more once it is built or failed,
    the three are one content. *)
Theorem waitUntilBuilt_blocked_iff_in_progress `{BuildException E} {RetT}
    (br : BuildResult RetT) (wakeups : list (BuildResult RetT)) :
  ((waitUntilBuilt (E := E) br wakeups).1 = Blocked
   ↔ Forall (λ s, State s = BS_InProgress) (br :: wakeups))
  ∧ (∀ p, (waitUntilBuilt (E := E) br wakeups).1 = Returned p →
       ∃ s a b, s ∈ br :: wakeups ∧ a ∈ br :: wakeups ∧ b ∈ br :: wakeups
                ∧ (State s = BS_Done ∨ State s = BS_Failed)
                ∧ Msg (Error a) = EmptyString
                ∧ p = Ptr b)
  ∧ (stays_once_built (br :: wakeups) = true →
     ∀ p, (waitUntilBuilt (E := E) br wakeups).1 = Returned p →
       ∃ s, s ∈ br :: wakeups
            ∧ (State s = BS_Done ∨ State s = BS_Failed)
            ∧ Msg (Error s) = EmptyString
            ∧ p = Ptr s).
Proof.
  pose proof (cv_wait_shape (@built_or_failed RetT) wakeups br) as Hshape.
  split; [|split].
  - rewrite waitUntilBuilt_outcome.
    destruct (cv_wait built_or_failed wakeups br).1 as [s|].
    + destruct Hshape as (Hin & Hpred & _). cbv zeta. split.
      * by destruct (isFilledIn _).
      * intros Hall. rewrite Forall_forall in Hall.
        apply Hall, built_or_failed_false in Hin. congruence.
    + destruct Hshape as (Hall & _). split; [|done]. intros _.
      eapply Forall_impl; [exact Hall|].
      intros s. apply built_or_failed_false.
  - intros p. rewrite waitUntilBuilt_outcome.
    destruct (cv_wait built_or_failed wakeups br).1 as [s|]; [|done].
    destruct Hshape as (Hin & Hpred & _). cbv zeta.
    set (later := cv_unread built_or_failed wakeups br).
    set (atCheck := default s (head later)).
    set (atUse := default atCheck (head (tail later))).
    assert (∀ x, x ∈ later → x ∈ br :: wakeups) as Hlater.
    { intros x Hx. right. by eapply cv_unread_subseteq. }
    assert (atCheck ∈ br :: wakeups) as Hcheck.
    { destruct (elem_of_default_head atCheck s later eq_refl) as [->|Hl];
        [done | by apply Hlater]. }
    assert (atUse ∈ br :: wakeups) as Huse.
    { destruct (elem_of_default_head atUse atCheck (tail later) eq_refl)
        as [->|Hl]; [done|].
      apply Hlater. destruct later; [done | by right]. }
    destruct (isFilledIn (Error atCheck)) eqn:Hfill; [done|].
    intros [= <-]. exists s, atCheck, atUse.
    repeat split; try done.
    + by apply built_or_failed_true.
    + by apply isFilledIn_false.
  - intros Hstay p.
    destruct (cv_wait built_or_failed wakeups br).1 as [s|] eqn:Hs.
    + destruct Hshape as (Hin & Hpred & _).
      rewrite (waitUntilBuilt_settled wakeups br s Hstay Hs).
      destruct (isFilledIn (Error s)) eqn:Hfill; [done|].
      intros [= <-]. exists s. split; [done|].
      split; [by apply built_or_failed_true|].
      split; [by apply isFilledIn_false | done].
    + rewrite waitUntilBuilt_outcome, Hs. done.
Qed.

Lemma waitUntilBuilt_blocked_iff_in_progress_witness :
  (waitUntilBuilt (E := compile_program_error) sample_in_progress
     [sample_in_progress; sample_in_progress]).1 = Blocked
  ∧ ∃ s, s ∈ [sample_in_progress; sample_in_progress; sample_done]
         ∧ 4096%N = Ptr s.
Proof.
  split.
  - apply (waitUntilBuilt_blocked_iff_in_progress (E := compile_program_error)
             sample_in_progress [sample_in_progress; sample_in_progress]).
    repeat constructor.
  - destruct (waitUntilBuilt_blocked_iff_in_progress
                (E := compile_program_error) sample_in_progress
                [sample_in_progress; sample_done]) as (_ & _ & Hret).
    destruct (Hret eq_refl 4096%N) as (s & Hin & _ & _ & Hp); [reflexivity|].
    exists s. split; [exact Hin | exact Hp].
Defined.

(** ** The mutexes of the member functions *)

Lemma held_after_app held t1 t2 :
  held_after held (t1 ++ t2)
  = held_after held t1 ≫= λ held', held_after held' t2.
Proof.
  revert held. induction t1 as [|e t1 IH]; intros held; [done|].
  destruct e as [m|m| |]; simpl; try apply IH.
  - destruct held; [done | apply IH].
  - destruct held as [m'|]; [|done]. case_decide; [apply IH | done].
Qed.

Lemma acquired_app t1 t2 : acquired (t1 ++ t2) = acquired t1 ++ acquired t2.
Proof. unfold acquired. apply omap_app. Qed.

(** The events of a call do not depend on the content of the cache. *)
Lemma trace_call x c :
  trace (call x c)
  = match x with
    | CGetOrInsertProgram _ =>
        [EvLock MProgramCacheMutex; EvUnlock MProgramCacheMutex]
    | CGetOrInsertKernel _ _ =>
        [EvLock MKernelsPerProgramCacheMutex;
         EvUnlock MKernelsPerProgramCacheMutex]
    | CTryToGetKernelFast _ | CSaveKernel _ _ =>
        [EvLock MKernelFastCacheMutex; EvUnlock MKernelFastCacheMutex]
    | CSetContextPtr _ | CReset => []
    end.
Proof. destruct x, c as [[progs keys] kc ctx fc]; reflexivity. Qed.

Lemma held_after_wait_rounds held n t :
  held_after held (wait_rounds n ++ t) = held_after held t.
Proof. induction n as [|n IH]; [done | exact IH]. Qed.

Lemma acquired_wait_rounds n : acquired (wait_rounds n) = [].
Proof. induction n as [|n IH]; [done | exact IH]. Qed.

(** X3. In every sequence of calls of [getOrInsertProgram],
    [getOrInsertKernel], [tryToGetKernelFast], [saveKernel],
    [setContextPtr] and [reset], a mutex is taken only when no mutex is
    held and is released by the call that took it before the next call
    starts; none of these calls takes the mutex of a build result.
    [acquireCachedPrograms] and [acquireKernelsPerProgramCache] are
    different: each takes the mutex of its map, returns the map and leaves
    the mutex held, for the view that it returns.  [waitUntilBuilt] takes
    the mutex of the build result and no mutex of the cache, and has
    released it when it returns or raises. *)
Theorem member_functions_hold_one_mutex `{BuildException E} {RetT}
    (xs : list Call) (c : KernelProgramCache)
    (br : BuildResult RetT) (wakeups : list (BuildResult RetT)) :
  held_after None (trace (run xs c)) = Some None
  ∧ (MBuildResultMutex ∉ acquired (trace (run xs c)))
  ∧ acquireCachedPrograms c
    = (MCachedPrograms c, c, [EvLock MProgramCacheMutex])
  ∧ held_after None (trace (acquireCachedPrograms c))
    = Some (Some MProgramCacheMutex)
  ∧ acquireKernelsPerProgramCache c
    = (MKernelsPerProgramCache c, c, [EvLock MKernelsPerProgramCacheMutex])
  ∧ held_after None (trace (acquireKernelsPerProgramCache c))
    = Some (Some MKernelsPerProgramCacheMutex)
  ∧ acquired (waitUntilBuilt (E := E) br wakeups).2 = [MBuildResultMutex]
  ∧ ((waitUntilBuilt (E := E) br wakeups).1 ≠ Blocked →
     held_after None (waitUntilBuilt (E := E) br wakeups).2 = Some None).
Proof.
  split; [|split].
  - revert c. induction xs as [|x xs IH]; intros c; [done|].
    destruct (run_cons x xs c) as (_ & _ & ->).
    rewrite held_after_app, trace_call.
    destruct x; simpl; try rewrite decide_True by done; apply IH.
  - revert c. induction xs as [|x xs IH]; intros c; [apply not_elem_of_nil|].
    destruct (run_cons x xs c) as (_ & _ & ->).
    rewrite acquired_app, trace_call.
    intros [Hin|Hin]%elem_of_app; [|by apply (IH (after (call x c)))].
    destruct x; simpl in Hin;
      repeat (apply elem_of_cons in Hin as [Hin|Hin]; [discriminate|]);
      by apply elem_of_nil in Hin.
  - split; [by destruct c|]. split; [done|].
    split; [by destruct c|]. split; [done|].
    rewrite waitUntilBuilt_trace, waitUntilBuilt_outcome.
    pose proof (cv_wait_shape (@built_or_failed RetT) wakeups br) as Hshape.
    destruct (cv_wait built_or_failed wakeups br).1 as [s|].
    + destruct Hshape as (_ & _ & n & _ & ->). split.
      * change (EvLock MBuildResultMutex
                  :: (wait_rounds n ++ [EvPred true])
                  ++ [EvUnlock MBuildResultMutex])
          with ([EvLock MBuildResultMutex]
                  ++ (wait_rounds n ++ [EvPred true])
                  ++ [EvUnlock MBuildResultMutex]).
        by rewrite !acquired_app, acquired_wait_rounds.
      * intros _. cbn [held_after].
        by rewrite <- app_assoc, held_after_wait_rounds.
    + destruct Hshape as (_ & ->). split; [|done].
      rewrite app_nil_r.
      change (EvLock MBuildResultMutex :: wait_rounds (S (length wakeups)))
        with ([EvLock MBuildResultMutex]
                ++ wait_rounds (S (length wakeups))).
      by rewrite acquired_app, acquired_wait_rounds.
Qed.

Lemma member_functions_hold_one_mutex_witness :
  held_after None
    (waitUntilBuilt (E := compile_program_error) sample_in_progress
       [sample_in_progress; sample_done]).2
  = Some None.
Proof.
  apply (member_functions_hold_one_mutex (E := compile_program_error)
           [] sample_cache sample_in_progress
           [sample_in_progress; sample_done]).
  discriminate.
Defined.

(** ** What is in the cache stays in the cache *)

Lemma after_call_getOrInsertProgram k c :
  after (call (CGetOrInsertProgram k) c) = after (getOrInsertProgram k c).
Proof. unfold call. by rewrite fmap_Op. Qed.

Lemma after_call_getOrInsertKernel p n c :
  after (call (CGetOrInsertKernel p n) c) = after (getOrInsertKernel p n c).
Proof. unfold call. by rewrite fmap_Op. Qed.

Lemma after_call_saveKernel k v c :
  after (call (CSaveKernel k v) c) = after (saveKernel k v c).
Proof. by destruct c. Qed.

Lemma program_entry_call_keeps k e x c :
  x ≠ CReset → program_entry k c = Some e →
  program_entry k (after (call x c)) = Some e.
Proof.
  intros Hr Hk. destruct (decide (x = CGetOrInsertProgram k)) as [->|Hx].
  - rewrite after_call_getOrInsertProgram, program_entry_getOrInsertProgram.
    by rewrite decide_True, Hk.
  - by rewrite program_entry_call_other.
Qed.

Lemma kernel_entry_call_keeps r e x c :
  x ≠ CReset → kernel_entry r c = Some e →
  kernel_entry r (after (call x c)) = Some e.
Proof.
  destruct r as [p n]. intros Hr Hk.
  destruct (decide (x = CGetOrInsertKernel p n)) as [->|Hx].
  - rewrite after_call_getOrInsertKernel, kernel_entry_getOrInsertKernel.
    by rewrite decide_True, Hk.
  - by rewrite kernel_entry_call_other.
Qed.

(** X4. No member function other than [reset] removes or changes a build
    result: through any sequence of calls without [reset], the node of a
    program key and the node of a (program, kernel name) pair keep the
    content they had, so a failed build stays failed and a built one
    stays built. *)
Theorem build_results_persist (xs : list Call) (c : KernelProgramCache) :
  CReset ∉ xs →
  (∀ k e, program_entry k c = Some e →
          program_entry k (after (run xs c)) = Some e)
  ∧ (∀ r e, kernel_entry r c = Some e →
            kernel_entry r (after (run xs c)) = Some e).
Proof.
  revert c. induction xs as [|x xs IH]; intros c Hr; [done|].
  apply not_elem_of_cons in Hr as [Hx Hr].
  destruct (run_cons x xs c) as (_ & -> & _).
  destruct (IH (after (call x c)) Hr) as [IHp IHk]. split.
  - intros k e Hk. by apply IHp, program_entry_call_keeps.
  - intros r e Hk. by apply IHk, kernel_entry_call_keeps.
Qed.

Lemma build_results_persist_witness :
  program_entry sample_key_O2 (after (run sample_calls sample_cache_used))
  = Some sample_failed.
Proof.
  apply (build_results_persist sample_calls sample_cache_used
           sample_calls_no_reset).
  vm_compute. reflexivity.
Defined.

Lemma fast_cache_call_other x c :
  (∀ k v, x ≠ CSaveKernel k v) → x ≠ CReset →
  MKernelFastCache (after (call x c)) = MKernelFastCache c.
Proof.
  intros Hx Hr.
  destruct x as [| | |k v| |]; try done;
    try by destruct c as [[progs keys] kc ctx fc].
  by destruct (Hx k v).
Qed.

Lemma fast_lookup_call_keeps k v x c :
  x ≠ CReset → MKernelFastCache c !! k = Some v →
  MKernelFastCache (after (call x c)) !! k = Some v.
Proof.
  intros Hr Hk. destruct x as [| | |k' v'| |];
    try (rewrite fast_cache_call_other by done; exact Hk).
  rewrite after_call_saveKernel, saveKernel_eq. unfold after; simpl.
  destruct (decide (k' = k)) as [->|Hne].
  - by rewrite map_emplace_lookup, Hk.
  - by rewrite map_emplace_lookup_ne.
Qed.

(** X5. No member function other than [reset] removes or replaces a tuple
    of the fast cache: through any sequence of calls without [reset], also
    one with further [saveKernel] calls for the same key, the key keeps its
    tuple and [tryToGetKernelFast] keeps returning it. *)
Theorem fast_cache_entries_persist (xs : list Call) (c : KernelProgramCache)
    (k : KernelFastCacheKeyT) (v : KernelFastCacheValT) :
  CReset ∉ xs →
  MKernelFastCache c !! k = Some v →
  MKernelFastCache (after (run xs c)) !! k = Some v
  ∧ result (tryToGetKernelFast k (after (run xs c))) = v.
Proof.
  intros Hr Hk.
  assert (MKernelFastCache (after (run xs c)) !! k = Some v) as Hafter.
  { revert c Hr Hk. induction xs as [|x xs IH]; intros c Hr Hk; [done|].
    apply not_elem_of_cons in Hr as [Hx Hr].
    destruct (run_cons x xs c) as (_ & -> & _).
    by apply IH, fast_lookup_call_keeps. }
  split; [exact Hafter|].
  rewrite tryToGetKernelFast_eq. unfold result; simpl. by rewrite Hafter.
Qed.

Lemma fast_cache_entries_persist_witness :
  result (tryToGetKernelFast sample_fast_key
            (after (run (CSaveKernel sample_fast_key (21%N, 22%N, 23%N, 4%N)
                           :: sample_calls) sample_cache_used)))
  = (11%N, 12%N, 13%N, 3%N).
Proof.
  apply (fast_cache_entries_persist
           (CSaveKernel sample_fast_key (21%N, 22%N, 23%N, 4%N) :: sample_calls)
           sample_cache_used sample_fast_key (11%N, 12%N, 13%N, 3%N)).
  - apply not_elem_of_cons. split; [discriminate | exact sample_calls_no_reset].
  - vm_compute. reflexivity.
Defined.

(** ** After a reset *)

Lemma result_call_reset c : result (call CReset c) = RVoid.
Proof. by destruct c. Qed.

(** X6. [reset] brings the cache back to the state of a cache with empty
    maps and the same context pointer: what a sequence of calls returns
    and leaves behind after a [reset] does not depend on what was in the
    cache before it.  In particular the first request for any program key,
    and for any kernel, after a [reset] is fresh again, whatever the state
    of its previous build result. *)
Theorem reset_forgets_history (xs : list Call) (c : KernelProgramCache) :
  after (reset c) = KernelProgramCache_init (MParentContext c)
  ∧ after (run (CReset :: xs) c)
    = after (run xs (KernelProgramCache_init (MParentContext c)))
  ∧ result (run (CReset :: xs) c)
    = RVoid :: result (run xs (KernelProgramCache_init (MParentContext c)))
  ∧ (∀ k, result (getOrInsertProgram k (after (reset c))) = (k, true))
  ∧ (∀ p n, result (getOrInsertKernel p n (after (reset c))) = ((p, n), true)).
Proof.
  destruct (run_cons CReset xs c) as (-> & -> & _).
  rewrite after_call_reset, result_call_reset, reset_eq.
  unfold after at 1 3 4; simpl.
  split; [done|]. split; [done|]. split; [done|]. split.
  - intros k. by rewrite getOrInsertProgram_miss.
  - intros p n. by rewrite getOrInsertKernel_miss.
Qed.

(** ** The size of the program cache *)

Lemma fresh_programs_cons r rs :
  fresh_programs (r :: rs) = fresh_programs [r] + fresh_programs rs.
Proof. unfold fresh_programs. simpl. lia. Qed.

Lemma program_sizes_call x c :
  x ≠ CReset →
  ProgramCache_size (MCachedPrograms (after (call x c)))
  = ProgramCache_size (MCachedPrograms c) + fresh_programs [result (call x c)]
  ∧ multimap_size (KeyMap (MCachedPrograms (after (call x c))))
    = multimap_size (KeyMap (MCachedPrograms c))
      + fresh_programs [result (call x c)].
Proof.
  intros Hr.
  destruct x as [k|p n|fk|fk fv|ctx|]; try done;
    try (rewrite programs_call_other by done;
         destruct c as [[progs keys] kc cx fc];
         unfold fresh_programs; simpl; lia).
  rewrite after_call_getOrInsertProgram.
  replace (result (call (CGetOrInsertProgram k) c))
    with (RProgram (result (getOrInsertProgram k c)))
    by (unfold call; by rewrite fmap_Op).
  unfold fresh_programs. cbn [sum_list_with].
  destruct (program_entry k c) as [e|] eqn:Hk.
  - rewrite (getOrInsertProgram_hit _ _ _ Hk).
    unfold after, result; simpl. lia.
  - rewrite getOrInsertProgram_size by done.
    rewrite (getOrInsertProgram_miss _ _ Hk).
    unfold after, result; simpl. rewrite multimap_emplace_size. lia.
Qed.

(** X7. Through any sequence of calls without [reset], [ProgramCache::size]
    grows by exactly the number of [getOrInsertProgram] calls that returned
    [true], and so does the number of nodes of [KeyMap]: every caller that
    is told to build accounts for one node, and no node appears
    otherwise. *)
Theorem program_cache_size_counts_fresh (xs : list Call)
    (c : KernelProgramCache) :
  CReset ∉ xs →
  ProgramCache_size (MCachedPrograms (after (run xs c)))
  = ProgramCache_size (MCachedPrograms c) + fresh_programs (result (run xs c))
  ∧ multimap_size (KeyMap (MCachedPrograms (after (run xs c))))
    = multimap_size (KeyMap (MCachedPrograms c))
      + fresh_programs (result (run xs c)).
Proof.
  revert c. induction xs as [|x xs IH]; intros c Hr.
  - unfold after, result, fresh_programs; simpl. lia.
  - apply not_elem_of_cons in Hr as [Hx Hr].
    destruct (run_cons x xs c) as (-> & -> & _).
    destruct (IH (after (call x c)) Hr) as [-> ->].
    destruct (program_sizes_call x c (not_eq_sym Hx)) as [-> ->].
    rewrite (fresh_programs_cons _ (result (run xs (after (call x c))))).
    lia.
Qed.

Lemma program_cache_size_counts_fresh_witness :
  ProgramCache_size (MCachedPrograms (after (run sample_calls sample_cache_used)))
  = 1 + fresh_programs (result (run sample_calls sample_cache_used)).
Proof.
  apply (program_cache_size_counts_fresh sample_calls sample_cache_used
           sample_calls_no_reset).
Defined.

(** ** The kernel cache has no program without a kernel *)

Lemma kernels_call_other x c :
  (∀ p n, x ≠ CGetOrInsertKernel p n) → x ≠ CReset →
  MKernelsPerProgramCache (after (call x c)) = MKernelsPerProgramCache c.
Proof.
  intros Hx Hr.
  destruct x as [|p n| | | |]; try done;
    try by destruct c as [[progs keys] kc ctx fc].
  by destruct (Hx p n).
Qed.

Lemma getOrInsertKernel_map p n c :
  MKernelsPerProgramCache (after (getOrInsertKernel p n c))
  = <[p := (map_emplace n (BuildResult_ctor nullptr BS_InProgress)
              (default ∅ (MKernelsPerProgramCache c !! p))).1]>
      (MKernelsPerProgramCache c).
Proof. by destruct c. Qed.

Lemma map_emplace_nonempty `{Countable K} {V} (k : K) (v : V) (m : gmap K V) :
  (map_emplace k v m).1 ≠ ∅.
Proof.
  intros Hempty. pose proof (map_emplace_lookup k v m) as Hk.
  rewrite Hempty, lookup_empty in Hk. done.
Qed.

Lemma call_keeps_kernel_maps_nonempty x c :
  map_Forall (λ _ ByName, ByName ≠ ∅) (MKernelsPerProgramCache c) →
  map_Forall (λ (_ : N) (ByName : gmap string (BuildResult (N * N))),
                ByName ≠ ∅)
    (MKernelsPerProgramCache (after (call x c))).
Proof.
  intros Hc. destruct (decide (x = CReset)) as [->|Hr].
  { rewrite after_call_reset. apply map_Forall_empty. }
  destruct x as [|p n| | | |];
    try (rewrite kernels_call_other by done; exact Hc).
  rewrite after_call_getOrInsertKernel, getOrInsertKernel_map.
  apply map_Forall_insert_2; [apply map_emplace_nonempty | exact Hc].
Qed.

Lemma run_keeps_kernel_maps_nonempty xs : ∀ c,
  map_Forall (λ _ ByName, ByName ≠ ∅) (MKernelsPerProgramCache c) →
  map_Forall (λ (_ : N) (ByName : gmap string (BuildResult (N * N))),
                ByName ≠ ∅)
    (MKernelsPerProgramCache (after (run xs c))).
Proof.
  induction xs as [|x xs IH]; intros c Hc; [exact Hc|].
  destruct (run_cons x xs c) as (_ & -> & _).
  by apply IH, call_keeps_kernel_maps_nonempty.
Qed.

(** X8. [getOrInsertKernel] creates the map of a program and puts the
    requested kernel into it under one lock, and nothing removes a kernel
    but [reset], which removes the maps too: after any sequence of calls on
    a cache that started with empty maps, no program of the kernel cache
    has an empty map, that is, a program is in the kernel cache exactly
    when one of its kernels has a build result. *)
Theorem kernel_cache_programs_have_kernels (xs : list Call)
    (ctx : ContextPtr) :
  let c := after (run xs (KernelProgramCache_init ctx)) in
  (∀ p ByName, MKernelsPerProgramCache c !! p = Some ByName → ByName ≠ ∅)
  ∧ (∀ p, is_Some (MKernelsPerProgramCache c !! p)
          ↔ ∃ n, is_Some (kernel_entry (p, n) c)).
Proof.
  intros c.
  assert (map_Forall (λ (_ : N) (ByName : gmap string (BuildResult (N * N))),
                        ByName ≠ ∅) (MKernelsPerProgramCache c)) as Hall.
  { apply run_keeps_kernel_maps_nonempty, map_Forall_empty. }
  split; [exact Hall|].
  intros p. split.
  - intros [ByName Hp]. pose proof (Hall p ByName Hp) as Hne.
    apply map_choose in Hne as (n & e & Hn). exists n, e.
    apply kernel_entry_Some. eauto.
  - intros (n & e & (ByName & Hp & _)%kernel_entry_Some). eauto.
Qed.

(** ** Calls on different maps *)

Lemma run_two x y c :
  after (run [x; y] c) = after (call y (after (call x c)))
  ∧ result (run [x; y] c)
    = [result (call x c); result (call y (after (call x c)))].
Proof.
  destruct (run_cons x [y] c) as (-> & -> & _).
  destruct (run_cons y [] (after (call x c))) as (-> & -> & _).
  done.
Qed.

(** X9. The program cache, the kernel cache and the fast cache are
    independent: a [getOrInsertProgram], a [getOrInsertKernel] and a call on
    the fast cache ([saveKernel] or [tryToGetKernelFast]) can be swapped
    pairwise, each getting the same reply and the cache ending the same. *)
Theorem calls_on_different_maps_commute
    (k : ProgramCacheKeyT) (p : PiProgram) (n : string)
    (fk fk' : KernelFastCacheKeyT) (fv : KernelFastCacheValT)
    (c : KernelProgramCache) :
  calls_commute (CGetOrInsertProgram k) (CGetOrInsertKernel p n) c
  ∧ calls_commute (CGetOrInsertProgram k) (CSaveKernel fk fv) c
  ∧ calls_commute (CGetOrInsertProgram k) (CTryToGetKernelFast fk') c
  ∧ calls_commute (CGetOrInsertKernel p n) (CSaveKernel fk fv) c
  ∧ calls_commute (CGetOrInsertKernel p n) (CTryToGetKernelFast fk') c.
Proof.
  unfold calls_commute.
  repeat match goal with
         | |- context [run [?x; ?y] c] =>
             destruct (run_two x y c) as [-> ->]
         end.
  destruct c as [[progs keys] kc ctx fc].
  repeat split; reflexivity.
Qed.

(** ** Calls on different keys of one map *)

Lemma map_emplace_flag `{Countable K} {V} (k : K) (v : V) (m : gmap K V) :
  (map_emplace k v m).2 = bool_decide (m !! k = None).
Proof. unfold map_emplace. by destruct (m !! k). Qed.

Lemma map_emplace_commute `{Countable K} {V} (k1 k2 : K) (v1 v2 : V)
    (m : gmap K V) :
  k1 ≠ k2 →
  (map_emplace k2 v2 (map_emplace k1 v1 m).1).1
  = (map_emplace k1 v1 (map_emplace k2 v2 m).1).1
  ∧ (map_emplace k2 v2 (map_emplace k1 v1 m).1).2 = (map_emplace k2 v2 m).2.
Proof.
  intros Hne. split.
  - apply map_eq. intros j.
    destruct (decide (k1 = j)) as [<-|H1]; [|destruct (decide (k2 = j)) as [<-|H2]].
    + rewrite map_emplace_lookup_ne, !map_emplace_lookup by done.
      by rewrite map_emplace_lookup_ne.
    + rewrite map_emplace_lookup, !map_emplace_lookup_ne by done.
      by rewrite map_emplace_lookup.
    + by rewrite !map_emplace_lookup_ne.
  - by rewrite !map_emplace_flag, map_emplace_lookup_ne.
Qed.

(** X10. Calls on the fast cache for different keys do not interfere:
    two [saveKernel] calls for different keys can be swapped, and a
    [saveKernel] for one key can be swapped with a [tryToGetKernelFast] for
    another, which returns what it would have returned without it. *)
Theorem fast_cache_keys_are_independent
    (k1 k2 : KernelFastCacheKeyT) (v1 v2 : KernelFastCacheValT)
    (c : KernelProgramCache) :
  k1 ≠ k2 →
  calls_commute (CSaveKernel k1 v1) (CSaveKernel k2 v2) c
  ∧ calls_commute (CSaveKernel k1 v1) (CTryToGetKernelFast k2) c
  ∧ result (tryToGetKernelFast k2 (after (saveKernel k1 v1 c)))
    = result (tryToGetKernelFast k2 c).
Proof.
  intros Hne. unfold calls_commute.
  repeat match goal with
         | |- context [run [?x; ?y] c] =>
             destruct (run_two x y c) as [-> ->]
         end.
  rewrite !tryToGetKernelFast_eq, saveKernel_eq.
  destruct c as [[progs keys] kc ctx fc].
  unfold after, result; simpl.
  rewrite (map_emplace_lookup_ne k1 k2) by done.
  destruct (map_emplace_commute k1 k2 v1 v2 fc Hne) as [-> _].
  done.
Qed.

Lemma fast_cache_keys_are_independent_witness :
  result (tryToGetKernelFast sample_fast_key_other
            (after (saveKernel sample_fast_key (11%N, 12%N, 13%N, 3%N)
                      sample_cache)))
  = result (tryToGetKernelFast sample_fast_key_other sample_cache).
Proof.
  apply (fast_cache_keys_are_independent sample_fast_key sample_fast_key_other
           (11%N, 12%N, 13%N, 3%N) (11%N, 12%N, 13%N, 3%N) sample_cache).
  discriminate.
Defined.

(** X11. Requests for two different program keys do not depend on their
    order: each gets the same reply in either order, the program cache
    ends with the same nodes, and [KeyMap] with the same nodes, possibly in
    another order. *)
Theorem getOrInsertProgram_order_independent
    (k1 k2 : ProgramCacheKeyT) (c : KernelProgramCache) :
  k1 ≠ k2 →
  Cache (MCachedPrograms
           (after (run [CGetOrInsertProgram k1; CGetOrInsertProgram k2] c)))
  = Cache (MCachedPrograms
             (after (run [CGetOrInsertProgram k2; CGetOrInsertProgram k1] c)))
  ∧ KeyMap (MCachedPrograms
              (after (run [CGetOrInsertProgram k1; CGetOrInsertProgram k2] c)))
    ≡ₚ KeyMap (MCachedPrograms
                 (after (run [CGetOrInsertProgram k2; CGetOrInsertProgram k1] c)))
  ∧ result (run [CGetOrInsertProgram k1; CGetOrInsertProgram k2] c)
    = reverse (result (run [CGetOrInsertProgram k2; CGetOrInsertProgram k1] c)).
Proof.
  intros Hne.
  repeat match goal with
         | |- context [run [?x; ?y] c] =>
             destruct (run_two x y c) as [-> ->]
         end.
  destruct c as [[progs keys] kc ctx fc].
  unfold after, result, call. rewrite !fmap_Op. unfold after, result.
  op_unfold.
  destruct (map_emplace_commute k1 k2 (BuildResult_ctor nullptr BS_InProgress)
              (BuildResult_ctor nullptr BS_InProgress) progs Hne)
    as [Hmap ->].
  destruct (map_emplace_commute k2 k1 (BuildResult_ctor nullptr BS_InProgress)
              (BuildResult_ctor nullptr BS_InProgress) progs (not_eq_sym Hne))
    as [_ ->].
  split; [exact Hmap|]. split; [|done].
  destruct (map_emplace k1 _ progs).2, (map_emplace k2 _ progs).2;
    rewrite ?multimap_emplace_perm; try done.
  apply perm_swap.
Qed.

Lemma getOrInsertProgram_order_independent_witness :
  result (run [CGetOrInsertProgram sample_key_O2;
               CGetOrInsertProgram sample_key_O3] sample_cache_used)
  = reverse (result (run [CGetOrInsertProgram sample_key_O3;
                          CGetOrInsertProgram sample_key_O2]
                       sample_cache_used)).
Proof.
  apply (getOrInsertProgram_order_independent sample_key_O2 sample_key_O3
           sample_cache_used).
  discriminate.
Defined.

(** X12. Requests for two different kernels, of one program or of two,
    can be swapped: each gets the same reply in either order and the cache
    ends the same, also when the first request creates the map of the
    program. *)
Theorem getOrInsertKernel_order_independent
    (p1 p2 : PiProgram) (n1 n2 : string) (c : KernelProgramCache) :
  (p1, n1) ≠ (p2, n2) →
  calls_commute (CGetOrInsertKernel p1 n1) (CGetOrInsertKernel p2 n2) c.
Proof.
  intros Hne. unfold calls_commute.
  repeat match goal with
         | |- context [run [?x; ?y] c] =>
             destruct (run_two x y c) as [-> ->]
         end.
  destruct c as [pc kc ctx fc].
  unfold after, result, call. rewrite !fmap_Op. unfold after, result.
  op_unfold.
  destruct (decide (p1 = p2)) as [->|Hp].
  - assert (n1 ≠ n2) as Hn by congruence.
    rewrite !lookup_insert_eq, !insert_insert_eq. simpl.
    destruct (map_emplace_commute n1 n2
                (BuildResult_ctor (T := N * N) nullptr BS_InProgress)
                (BuildResult_ctor nullptr BS_InProgress)
                (default ∅ (kc !! p2)) Hn) as [-> ->].
    destruct (map_emplace_commute n2 n1
                (BuildResult_ctor (T := N * N) nullptr BS_InProgress)
                (BuildResult_ctor nullptr BS_InProgress)
                (default ∅ (kc !! p2)) (not_eq_sym Hn)) as [_ ->].
    done.
  - rewrite !lookup_insert_ne by done.
    by rewrite (insert_insert_ne kc p2 p1) by done.
Qed.

Lemma getOrInsertKernel_order_independent_witness :
  calls_commute (CGetOrInsertKernel 3%N "saxpy") (CGetOrInsertKernel 3%N "gemm")
    sample_cache_warm.
Proof.
  apply (getOrInsertKernel_order_independent 3%N 3%N "saxpy" "gemm"
           sample_cache_warm).
  discriminate.
Defined.

(** ** The context pointer *)

Lemma context_call x c :
  MParentContext (after (call x c))
  = match x with
    | CSetContextPtr p => p
    | _ => MParentContext c
    end.
Proof. destruct x, c as [[progs keys] kc ctx fc]; reflexivity. Qed.

(** X13. The context pointer is what the last [setContextPtr] stored, or
    what it was when there was none: no other member function changes it,
    and [reset] in particular clears the maps but keeps the cache attached
    to its context.  [setContextPtr] changes none of the maps. *)
Theorem context_pointer_is_last_set (xs : list Call) (AContext : ContextPtr)
    (c : KernelProgramCache) :
  MParentContext (after (run xs c)) = last_context xs (MParentContext c)
  ∧ MCachedPrograms (after (setContextPtr AContext c)) = MCachedPrograms c
  ∧ MKernelsPerProgramCache (after (setContextPtr AContext c))
    = MKernelsPerProgramCache c
  ∧ MKernelFastCache (after (setContextPtr AContext c)) = MKernelFastCache c.
Proof.
  split; [|by destruct c].
  revert c. induction xs as [|x xs IH]; intros c; [done|].
  destruct (run_cons x xs c) as (_ & -> & _).
  rewrite IH, context_call. by destruct x.
Qed.

(** ** The order of the index *)

Lemma CommonProgramKeyT_less_asym (a b : CommonProgramKeyT) :
  less a b = true → less b a = false.
Proof.
  destruct a as [a1 a2], b as [b1 b2].
  unfold less, pair_less, less, N_less; simpl.
  destruct (N.ltb_spec a1 b1), (N.ltb_spec b1 a1), (N.ltb_spec a2 b2),
    (N.ltb_spec b2 a2); simpl; try done; lia.
Qed.

Lemma multimap_emplace_head `{Less K} {V} (k : K) (v : V) (m : multimap K V) :
  head (multimap_emplace k v m) = Some (k, v)
  ∨ (head (multimap_emplace k v m) = head m
     ∧ ∃ kv, head m = Some kv ∧ less k kv.1 = false).
Proof.
  destruct m as [|kv rest]; simpl; [by left|].
  destruct (less k kv.1) eqn:Hlt; [by left|]. right. eauto.
Qed.

Lemma multimap_sorted_cons `{Less K} {V} (kv : K * V) (m : multimap K V) :
  multimap_sorted (kv :: m) = true
  ↔ (∀ kv', head m = Some kv' → less kv'.1 kv.1 = false)
    ∧ multimap_sorted m = true.
Proof.
  destruct m as [|kv' rest]; cbn [multimap_sorted head].
  - split; [done | by intros [_ _]].
  - rewrite andb_true_iff, negb_true_iff. split.
    + intros [Hhd Hs]. split; [by intros ? [= <-] | done].
    + intros [Hhd Hs]. split; [by apply Hhd | done].
Qed.

Lemma multimap_emplace_sorted `{Less K} {V} (k : K) (v : V)
    (m : multimap K V) :
  (∀ a b : K, less a b = true → less b a = false) →
  multimap_sorted m = true →
  multimap_sorted (multimap_emplace k v m) = true.
Proof.
  intros Hasym. induction m as [|kv rest IH]; intros Hs; [done|].
  cbn [multimap_emplace]. destruct (less k kv.1) eqn:Hlt.
  - apply multimap_sorted_cons. split; [|done].
    intros kv' [= <-]. by apply Hasym.
  - apply multimap_sorted_cons in Hs as [Hhd Hs].
    apply multimap_sorted_cons. split; [|by apply IH].
    intros kv' Hkv'.
    destruct (multimap_emplace_head k v rest) as [Hnew|[Hold _]].
    + rewrite Hnew in Hkv'. by injection Hkv' as <-.
    + rewrite Hold in Hkv'. by apply Hhd.
Qed.

Lemma call_keeps_KeyMap_sorted x c :
  multimap_sorted (KeyMap (MCachedPrograms c)) = true →
  multimap_sorted (KeyMap (MCachedPrograms (after (call x c)))) = true.
Proof.
  intros Hc. destruct (decide (x = CReset)) as [->|Hr].
  { by rewrite after_call_reset. }
  destruct x as [k| | | | |];
    try (rewrite programs_call_other by done; exact Hc).
  rewrite after_call_getOrInsertProgram.
  destruct (program_entry k c) as [e|] eqn:Hk.
  - by rewrite (getOrInsertProgram_hit _ _ _ Hk).
  - rewrite (getOrInsertProgram_miss _ _ Hk). unfold after; simpl.
    apply multimap_emplace_sorted; [apply CommonProgramKeyT_less_asym | done].
Qed.

(** X14. [KeyMap] stays ordered by common key: in a cache whose [KeyMap]
    is in non-decreasing order of common keys, and so in a cache that
    started with empty maps, it is still so after any sequence of calls.
    The node that [getOrInsertProgram] adds goes behind every node whose
    common key is not greater, so behind the nodes that earlier requests
    added for the same module and device. *)
Theorem KeyMap_stays_sorted (xs : list Call) (c : KernelProgramCache)
    (ctx : ContextPtr) :
  multimap_sorted (KeyMap (MCachedPrograms c)) = true →
  multimap_sorted (KeyMap (MCachedPrograms (after (run xs c)))) = true
  ∧ multimap_sorted
      (KeyMap (MCachedPrograms (after (run xs (KernelProgramCache_init ctx)))))
    = true
  ∧ ∀ k, program_entry k c = None →
      ∃ l1 l2,
        KeyMap (MCachedPrograms c) = l1 ++ l2
        ∧ KeyMap (MCachedPrograms (after (getOrInsertProgram k c)))
          = l1 ++ common_key_node k :: l2
        ∧ Forall (λ kv, less (k.1.2, k.2.1) kv.1 = false) l1
        ∧ Forall (λ kv, less (k.1.2, k.2.1) kv.1 = true) (take 1 l2).
Proof.
  intros Hc.
  assert (∀ c0, multimap_sorted (KeyMap (MCachedPrograms c0)) = true →
            multimap_sorted (KeyMap (MCachedPrograms (after (run xs c0))))
            = true) as Hrun.
  { induction xs as [|x xs IH]; intros c0 H0; [exact H0|].
    destruct (run_cons x xs c0) as (_ & -> & _).
    by apply IH, call_keeps_KeyMap_sorted. }
  split; [by apply Hrun|]. split; [by apply Hrun|].
  intros k Hk. rewrite (getOrInsertProgram_miss _ _ Hk). unfold after; simpl.
  generalize (KeyMap (MCachedPrograms c)). clear.
  intros m. induction m as [|kv rest IH]; simpl.
  - exists [], []. by repeat split.
  - destruct (less (k.1.2, k.2.1) kv.1) eqn:Hlt.
    + exists [], (kv :: rest). repeat split; try done.
      simpl. rewrite take_0. by repeat constructor.
    + destruct IH as (l1 & l2 & -> & -> & H1 & H2).
      exists (kv :: l1), l2. repeat split; try done. by constructor.
Qed.

Lemma KeyMap_stays_sorted_witness :
  multimap_sorted
    (KeyMap (MCachedPrograms (after (run sample_calls sample_cache_used))))
  = true.
Proof.
  destruct (KeyMap_stays_sorted sample_calls sample_cache_used 1%N)
    as [Hsorted _]; [vm_compute; reflexivity | exact Hsorted].
Defined.

(** ** A wait that has ended *)

Lemma cv_wait_ended_app {St} (Pred : St → bool) wakeups more : ∀ now s,
  (cv_wait Pred wakeups now).1 = Some s →
  cv_wait Pred (wakeups ++ more) now = cv_wait Pred wakeups now.
Proof.
  induction wakeups as [|w rest IH]; intros now s.
  - simpl. destruct (Pred now) eqn:Hp; [|done].
    intros _. by rewrite (cv_wait_now _ _ _ Hp).
  - destruct (Pred now) eqn:Hp.
    + intros _. by rewrite !(cv_wait_now _ _ _ Hp).
    + rewrite <- app_comm_cons, !(cv_wait_later _ _ _ _ Hp). simpl.
      intros Hs. by rewrite (IH _ _ Hs).
Qed.

Lemma stays_once_built_prefix {T} (contents more : list (BuildResult T)) :
  stays_once_built (contents ++ more) = true →
  stays_once_built contents = true.
Proof.
  induction contents as [|s later IH]; [done|]. simpl.
  destruct (built_or_failed s); [|exact IH].
  rewrite forallb_app, andb_true_iff. by intros [? _].
Qed.

(** X15. Once [waitUntilBuilt] has returned or raised, further wakeups
    play no part: with any further contents appended to those the waiter
    saw, the call makes the same events, and on a build result that is
    not written any more once it is built or failed it ends in the same
    way. *)
Theorem waitUntilBuilt_stable_once_built `{BuildException E} {RetT}
    (br : BuildResult RetT) (wakeups more : list (BuildResult RetT)) :
  (waitUntilBuilt (E := E) br wakeups).1 ≠ Blocked →
  (waitUntilBuilt (E := E) br (wakeups ++ more)).2
  = (waitUntilBuilt (E := E) br wakeups).2
  ∧ (stays_once_built (br :: wakeups ++ more) = true →
     (waitUntilBuilt (E := E) br (wakeups ++ more)).1
     = (waitUntilBuilt (E := E) br wakeups).1).
Proof.
  rewrite waitUntilBuilt_outcome at 1.
  destruct (cv_wait built_or_failed wakeups br).1 as [s|] eqn:Hs; [|done].
  intros _.
  pose proof (cv_wait_ended_app built_or_failed wakeups more br s Hs) as Happ.
  split.
  - by rewrite !waitUntilBuilt_trace, Happ.
  - intros Hstay.
    rewrite (waitUntilBuilt_settled (wakeups ++ more) br s Hstay)
      by by rewrite Happ.
    rewrite (waitUntilBuilt_settled wakeups br s); [done| |done].
    by apply (stays_once_built_prefix (br :: wakeups) more).
Qed.

Lemma waitUntilBuilt_stable_once_built_witness :
  (waitUntilBuilt (E := compile_program_error) sample_in_progress
     ([sample_failed] ++ [sample_failed; sample_failed])).1
  = (waitUntilBuilt (E := compile_program_error) sample_in_progress
       [sample_failed]).1.
Proof.
  destruct (waitUntilBuilt_stable_once_built (E := compile_program_error)
              sample_in_progress [sample_failed] [sample_failed; sample_failed])
    as [_ Hsame]; [discriminate|].
  apply Hsame. reflexivity.
Defined.

Lemma kernel_cache_programs_have_kernels_witness :
  ∃ n, is_Some (kernel_entry (3%N, n) (after (run sample_calls sample_cache))).
Proof.
  destruct (kernel_cache_programs_have_kernels sample_calls 1%N) as [_ Hiff].
  apply (Hiff 3%N). vm_compute. eexists. reflexivity.
Defined.
